(** * MTF record parser and unit assembler (scripts/megameklab-conversion/mtf_converter.py)

    A shallow embedding of [MTFParser]: the line scanner [_parse_lines], the
    field interpreter [_parse_key_value] with its engine and heat-sink
    sub-parsers, and the assembler [_build_unit] with its three builders.

    Text read by [parse_file] is decoded as latin-1, so every character is a
    code point below 256: a Python [str] is a [list ascii] here.  The only
    operation leaving that range is [str.upper] (used for armor location
    codes), whose result is a list of code points [list N]. *)

From Stdlib Require Import String Ascii List ZArith NArith Bool Arith Lia.
Import ListNotations.

Set Implicit Arguments.

Local Open Scope list_scope.

(** ** Equality tests on the character and key types *)

Class Eqb (A : Type) := eqb : A -> A -> bool.

Class EqbOk (A : Type) `{Eqb A} :=
  eqb_eq : forall a b : A, eqb a b = true <-> a = b.

Arguments EqbOk A {_}.

#[export] Instance Eqb_ascii : Eqb ascii := Ascii.eqb.

#[export] Instance Eqb_N : Eqb N := N.eqb.

Fixpoint list_eqb {A} `{Eqb A} (s t : list A) : bool :=
  match s, t with
  | [], [] => true
  | a :: s', b :: t' => eqb a b && list_eqb s' t'
  | _, _ => false
  end.

#[export] Instance Eqb_list {A} `{Eqb A} : Eqb (list A) := list_eqb.

(** ** Python [str] *)

Module PyStr.

(** A latin-1 string, and a string of arbitrary code points. *)
Definition str := list ascii.
Definition ustr := list N.

Definition lit (s : string) : str := list_ascii_of_string s.
Definition ulit (s : string) : ustr := map N_of_ascii (list_ascii_of_string s).

Section Generic.
Context {A : Type} `{Eqb A}.

(** [s.startswith(p)] *)
Fixpoint startswith (p s : list A) : bool :=
  match p, s with
  | [], _ => true
  | a :: p', b :: s' => eqb a b && startswith p' s'
  | _ :: _, [] => false
  end.

(** [s.endswith(p)] *)
Definition endswith (p s : list A) : bool := startswith (rev p) (rev s).

(** [p in s] *)
Fixpoint contains (p s : list A) : bool :=
  startswith p s ||
  match s with
  | [] => false
  | _ :: s' => contains p s'
  end.

(** [c in s] for a one-character [c] *)
Definition has_char (c : A) (s : list A) : bool := existsb (eqb c) s.

(** [s.replace(old, new)] for a non-empty [old]: occurrences are
    replaced left to right and do not overlap.  [skip] counts the
    characters of a matched occurrence still to be passed over. *)
Fixpoint replace_from (old new : list A) (skip : nat) (s : list A) : list A :=
  match s with
  | [] => []
  | c :: s' =>
      match skip with
      | S k => replace_from old new k s'
      | O => if startswith old s
             then new ++ replace_from old new (length old - 1) s'
             else c :: replace_from old new 0 s'
      end
  end.

Definition replace (old new s : list A) : list A := replace_from old new 0 s.

(** [s.split(sep, 1)] for a one-character [sep] that occurs in [s]:
    the text before the first [sep] and the text after it. *)
Fixpoint split1 (sep : A) (s : list A) : list A * list A :=
  match s with
  | [] => ([], [])
  | c :: s' => if eqb c sep then ([], s')
               else let (a, b) := split1 sep s' in (c :: a, b)
  end.

(** [sep.join(parts)] *)
Fixpoint join (sep : list A) (parts : list (list A)) : list A :=
  match parts with
  | [] => []
  | [p] => p
  | p :: ps => p ++ sep ++ join sep ps
  end.

Fixpoint takewhile (f : A -> bool) (s : list A) : list A :=
  match s with
  | c :: s' => if f c then c :: takewhile f s' else []
  | [] => []
  end.

Fixpoint dropwhile (f : A -> bool) (s : list A) : list A :=
  match s with
  | c :: s' => if f c then dropwhile f s' else s
  | [] => []
  end.
End Generic.

Definition code (c : ascii) : N := N_of_ascii c.

(** [c.isspace()] on latin-1: TAB..CR, FS..US, space, NEL and NBSP. *)
Definition isspace (c : ascii) : bool :=
  let n := code c in
  ((9 <=? n) && (n <=? 13) || (28 <=? n) && (n <=? 32)
   || (n =? 133) || (n =? 160))%N.

(** [\d] and [str.isdecimal] on latin-1: the ASCII digits only. *)
Definition isdigit (c : ascii) : bool :=
  let n := code c in ((48 <=? n) && (n <=? 57))%N.

(** [s.strip()] *)
Definition lstrip (s : str) : str := dropwhile isspace s.
Definition rstrip (s : str) : str := rev (dropwhile isspace (rev s)).
Definition strip (s : str) : str := rstrip (lstrip s).

(** [c.lower()] on latin-1: A-Z and the accented capitals U+00C0..U+00DE
    (without the multiplication sign U+00D7) move up by 32. *)
Definition lower_char (c : ascii) : ascii :=
  let n := code c in
  if ((65 <=? n) && (n <=? 90) || (192 <=? n) && (n <=? 214)
      || (216 <=? n) && (n <=? 222))%N
  then ascii_of_N (n + 32) else c.

Definition lower (s : str) : str := map lower_char s.

(** [c.upper()] on latin-1.  Three characters leave the range or grow:
    sharp s becomes "SS", y-diaeresis becomes U+0178 and the micro sign
    becomes U+039C. *)
Definition upper_char (c : ascii) : ustr :=
  let n := code c in
  if ((97 <=? n) && (n <=? 122) || (224 <=? n) && (n <=? 246)
      || (248 <=? n) && (n <=? 254))%N then [(n - 32)%N]
  else if (n =? 223)%N then [83%N; 83%N]
  else if (n =? 255)%N then [376%N]
  else if (n =? 181)%N then [924%N]
  else [n].

Definition upper (s : str) : ustr := flat_map upper_char s.

End PyStr.
Import PyStr.

Arguments lit s%_string.
Arguments ulit s%_string.

(** ** Python [dict]

    A dictionary keeps its keys in insertion order, and the builders
    iterate over [items()] in that order, so a dictionary is an association
    list.  Assigning to a key that is present replaces the value in place;
    a new key goes to the end. *)

Module Dict.

Definition t (K V : Type) := list (K * V).

Definition empty {K V} : t K V := [].

(** [d.get(k)] *)
Fixpoint get {K V} `{Eqb K} (k : K) (d : t K V) : option V :=
  match d with
  | [] => None
  | (k', v) :: d' => if eqb k k' then Some v else get k d'
  end.

(** [d.get(k, default)] *)
Definition get_default {K V} `{Eqb K} (k : K) (dflt : V) (d : t K V) : V :=
  match get k d with
  | Some v => v
  | None => dflt
  end.

(** [k in d] *)
Definition mem {K V} `{Eqb K} (k : K) (d : t K V) : bool :=
  match get k d with
  | Some _ => true
  | None => false
  end.

(** [d[k] = v] *)
Fixpoint set {K V} `{Eqb K} (k : K) (v : V) (d : t K V) : t K V :=
  match d with
  | [] => [(k, v)]
  | (k', v') :: d' => if eqb k k' then (k', v) :: d' else (k', v') :: set k v d'
  end.

Definition keys {K V} (d : t K V) : list K := map fst d.

(** Truth value of a dictionary: non-empty. *)
Definition truthy {K V} (d : t K V) : bool :=
  match d with
  | [] => false
  | _ :: _ => true
  end.

End Dict.

(** ** Exceptions

    A call either returns or raises an exception that nothing inside
    [_parse_lines] catches ([parse_file] turns it into [None]). *)

Inductive outcome (A : Type) : Type :=
| Returned (a : A)
| Raised.

Arguments Returned {A} a.
Arguments Raised {A}.

Definition bind {A B} (m : outcome A) (f : A -> outcome B) : outcome B :=
  match m with
  | Returned a => f a
  | Raised => Raised
  end.

Notation "x <- m ;; k" := (bind m (fun x => k))
  (at level 61, m at next level, right associativity).

(** ** Number parsing *)

Definition digit_value (c : ascii) : Z := Z.of_N (code c) - 48.

(** Value of a run of decimal digits, most significant first. *)
Definition digits_to_Z (ds : str) : Z :=
  fold_left (fun acc c => acc * 10 + digit_value c)%Z ds 0%Z.

(** The digits of an integer literal after its sign: digits with single
    underscores between them.  [after_us] tells that the previous character
    was an underscore. *)
Fixpoint int_digits (acc : Z) (after_us : bool) (s : str) : option Z :=
  match s with
  | [] => if after_us then None else Some acc
  | c :: s' =>
      if isdigit c then int_digits (acc * 10 + digit_value c)%Z false s'
      else if eqb c "_"%char
           then if after_us then None else int_digits acc true s'
           else None
  end.

Definition int_unsigned (s : str) : option Z :=
  match s with
  | c :: _ => if isdigit c then int_digits 0%Z false s else None
  | [] => None
  end.

(** White space that [int] skips around the literal: the ASCII blanks, and
    NEL and NBSP, which it first turns into blanks. *)
Definition int_space (c : ascii) : bool :=
  let n := code c in
  ((9 <=? n) && (n <=? 13) || (n =? 32) || (n =? 133) || (n =? 160))%N.

(** [int(s)]: [None] is a [ValueError].  The interpreter's limit on the
    number of digits of a literal is not modelled. *)
Definition py_int (s : str) : option Z :=
  let t := rev (dropwhile int_space (rev (dropwhile int_space s))) in
  match t with
  | "+"%char :: t' => int_unsigned t'
  | "-"%char :: t' => option_map Z.opp (int_unsigned t')
  | _ => int_unsigned t
  end.

(** Result of [int(float(s))]: a value, a [ValueError] (caught by the
    caller) or another exception ([OverflowError] for an infinity). *)
Inductive conversion : Type :=
| Converted (z : Z)
| ValueError
| OtherError.

(** ** The engine and heat-sink patterns *)

Definition newline : ascii := "010"%char.

(** The end anchor: at the end of the text, or before a newline that ends it. *)
Definition at_end (r : str) : bool :=
  match r with
  | [] => true
  | [c] => eqb c newline
  | _ => false
  end.

(** The optional qualifier and the end anchor at the start of [r]: an
    opening parenthesis, one or more characters other than a closing
    parenthesis (group 3), a closing parenthesis, then the end.  The
    qualifier is tried first, then the empty alternative.  Group 3 is
    greedy and stops at the first closing parenthesis, which is the
    character the rest starts with when the rest is not empty. *)
Definition match_qualifier (r : str) : option (option str) :=
  let without := if at_end r then Some None else None in
  match r with
  | c :: r' =>
      if eqb c "("%char then
        let q := takewhile (fun c => negb (eqb c ")"%char)) r' in
        match q, dropwhile (fun c => negb (eqb c ")"%char)) r' with
        | _ :: _, _ :: rest => if at_end rest then Some (Some q) else without
        | _, _ => without
        end
      else without
  | [] => without
  end.

(** Group 2 and what follows it: group 2 grows one character at a time,
    never over a newline, until the rest of the pattern matches.  [seen]
    holds group 2 so far, last character first. *)
Fixpoint match_type (seen r : str) : option (str * option str) :=
  match match_qualifier r with
  | Some g3 => Some (rev seen, g3)
  | None =>
      match r with
      | [] => None
      | c :: r' => if eqb c newline then None else match_type (c :: seen) r'
      end
  end.

(** Backtracking of a greedy repetition: [f] is tried on the repetition
    taking [n] characters, then [n - 1], down to [lo]. *)
Fixpoint longest_first {A} (f : nat -> option A) (lo n : nat) : option A :=
  match f n with
  | Some a => Some a
  | None =>
      match n with
      | O => None
      | S n' => if n <=? lo then None else longest_first f lo n'
      end
  end.

(** The engine pattern at the start of [value]: one or more digits
    (group 1), any blanks, a lazy run of characters (group 2), an optional
    parenthesised qualifier (group 3) and the end of the text.  The greedy
    repetitions give characters back, longest first, when what follows
    fails. *)
Definition engine_match (value : str) : option (str * str * option str) :=
  let nd := length (takewhile isdigit value) in
  if nd =? 0 then None
  else
    longest_first (fun k =>
      let rest := skipn k value in
      let ns := length (takewhile isspace rest) in
      longest_first (fun j =>
        match match_type [] (skipn j rest) with
        | Some (g2, g3) => Some (firstn k value, g2, g3)
        | None => None
        end) 0 ns) 1 nd.

Record engine_data : Type := mkEngine { rating : Z; type : str }.

(** [_parse_engine] *)
Definition _parse_engine (value : str) : engine_data :=
  match engine_match value with
  | Some (g1, g2, g3) =>
      let rating := digits_to_Z g1 in
      let type_name := strip g2 in
      let full_type :=
        match g3 with
        | Some q => type_name ++ lit "(" ++ q ++ lit ")"
        | None => type_name
        end in
      mkEngine rating full_type
  | None => mkEngine 0 value
  end.

Record heat_sink_data : Type := mkHeatSinks { hs_count : Z; hs_type : str }.

(** The heat-sink pattern at the start of [value]: one or more digits
    (group 1), any blanks, then the rest of the line (group 2).  Every
    repetition is greedy and nothing follows group 2, so the first attempt
    matches. *)
Definition heat_sinks_match (value : str) : option (str * str) :=
  let g1 := takewhile isdigit value in
  match g1 with
  | [] => None
  | _ :: _ =>
      let rest := dropwhile isspace (dropwhile isdigit value) in
      Some (g1, takewhile (fun c => negb (eqb c newline)) rest)
  end.

(** [_parse_heat_sinks] *)
Definition _parse_heat_sinks (value : str) : heat_sink_data :=
  match heat_sinks_match value with
  | Some (g1, g2) =>
      let count := digits_to_Z g1 in
      let hs_type := match g2 with [] => lit "Single" | _ :: _ => strip g2 end in
      mkHeatSinks count hs_type
  | None => mkHeatSinks 10 (lit "Single")
  end.

(** ** The raw record

    [data], the dictionary [_parse_lines] fills.  Its keys are split by the
    type of their values: [strs] holds the keys assigned a string
    (chassis, model, config, techbase, source, rules_level, role,
    structure, myomer, armor_type, manufacturer, primary_factory), [ints]
    those assigned an integer (mul_id, mass, walk_mp, jump_mp); era holds
    either; the other keys have a field each.  A key that was never
    assigned is absent. *)

Record weapon : Type := mkWeapon { name : str; location : str }.

Record RawRecord : Type := mkRaw {
  strs : Dict.t str str;
  ints : Dict.t str Z;
  era : option (Z + str);
  engine : option engine_data;
  heat_sinks : option heat_sink_data;
  quirks : list str;
  weapons : list weapon;
  criticals : Dict.t str (list str);
  armor_allocation : Dict.t ustr Z;
  fluff : Dict.t str str;
  system_manufacturers : Dict.t str str
}.

Definition with_strs (v : Dict.t str str) (d : RawRecord) : RawRecord :=
  mkRaw v (ints d) (era d) (engine d) (heat_sinks d) (quirks d) (weapons d) (criticals d) (armor_allocation d) (fluff d) (system_manufacturers d).

Definition with_ints (v : Dict.t str Z) (d : RawRecord) : RawRecord :=
  mkRaw (strs d) v (era d) (engine d) (heat_sinks d) (quirks d) (weapons d) (criticals d) (armor_allocation d) (fluff d) (system_manufacturers d).

Definition with_era (v : option (Z + str)) (d : RawRecord) : RawRecord :=
  mkRaw (strs d) (ints d) v (engine d) (heat_sinks d) (quirks d) (weapons d) (criticals d) (armor_allocation d) (fluff d) (system_manufacturers d).

Definition with_engine (v : option engine_data) (d : RawRecord) : RawRecord :=
  mkRaw (strs d) (ints d) (era d) v (heat_sinks d) (quirks d) (weapons d) (criticals d) (armor_allocation d) (fluff d) (system_manufacturers d).

Definition with_heat_sinks (v : option heat_sink_data) (d : RawRecord) : RawRecord :=
  mkRaw (strs d) (ints d) (era d) (engine d) v (quirks d) (weapons d) (criticals d) (armor_allocation d) (fluff d) (system_manufacturers d).

Definition with_quirks (v : list str) (d : RawRecord) : RawRecord :=
  mkRaw (strs d) (ints d) (era d) (engine d) (heat_sinks d) v (weapons d) (criticals d) (armor_allocation d) (fluff d) (system_manufacturers d).

Definition with_weapons (v : list weapon) (d : RawRecord) : RawRecord :=
  mkRaw (strs d) (ints d) (era d) (engine d) (heat_sinks d) (quirks d) v (criticals d) (armor_allocation d) (fluff d) (system_manufacturers d).

Definition with_criticals (v : Dict.t str (list str)) (d : RawRecord) : RawRecord :=
  mkRaw (strs d) (ints d) (era d) (engine d) (heat_sinks d) (quirks d) (weapons d) v (armor_allocation d) (fluff d) (system_manufacturers d).

Definition with_armor_allocation (v : Dict.t ustr Z) (d : RawRecord) : RawRecord :=
  mkRaw (strs d) (ints d) (era d) (engine d) (heat_sinks d) (quirks d) (weapons d) (criticals d) v (fluff d) (system_manufacturers d).

Definition with_fluff (v : Dict.t str str) (d : RawRecord) : RawRecord :=
  mkRaw (strs d) (ints d) (era d) (engine d) (heat_sinks d) (quirks d) (weapons d) (criticals d) (armor_allocation d) v (system_manufacturers d).

Definition with_system_manufacturers (v : Dict.t str str) (d : RawRecord) : RawRecord :=
  mkRaw (strs d) (ints d) (era d) (engine d) (heat_sinks d) (quirks d) (weapons d) (criticals d) (armor_allocation d) (fluff d) v.

(** [data[key] = value] for a string and for an integer value. *)
Definition set_str (key : string) (value : str) (d : RawRecord) : RawRecord :=
  with_strs (Dict.set (lit key) value (strs d)) d.

Definition set_int (key : string) (value : Z) (d : RawRecord) : RawRecord :=
  with_ints (Dict.set (lit key) value (ints d)) d.

(** The dictionary [_parse_lines] starts from. *)
Definition empty_record : RawRecord :=
  mkRaw Dict.empty Dict.empty None None None [] [] Dict.empty Dict.empty
        Dict.empty Dict.empty.

(** ** The field interpreter *)

Section FieldInterpreter.

(** [int(float(value))] of the mass field.  Floating-point parsing and
    rounding are left to the interpreter: the function is a parameter. *)
Variable int_of_float : str -> conversion.

(** [_parse_key_value]: the new [data], or an exception. *)
Definition _parse_key_value (key value : str) (data : RawRecord) : outcome RawRecord :=
  if eqb key (lit "chassis") then Returned (set_str "chassis" value data)
  else if eqb key (lit "model") then Returned (set_str "model" value data)
  else if eqb key (lit "mul_id") then
    match py_int value with
    | Some n => Returned (set_int "mul_id" n data)
    | None => Returned data
    end
  else if eqb key (lit "config") then Returned (set_str "config" value data)
  else if eqb key (lit "techbase") then Returned (set_str "techbase" value data)
  else if eqb key (lit "era") then
    match py_int value with
    | Some n => Returned (with_era (Some (inl n)) data)
    | None => Returned (with_era (Some (inr value)) data)
    end
  else if eqb key (lit "source") then Returned (set_str "source" value data)
  else if eqb key (lit "rules_level") then Returned (set_str "rules_level" value data)
  else if eqb key (lit "role") then Returned (set_str "role" value data)
  else if eqb key (lit "mass") then
    match int_of_float value with
    | Converted n => Returned (set_int "mass" n data)
    | ValueError => Returned (set_int "mass" 0 data)
    | OtherError => Raised
    end
  else if eqb key (lit "engine") then
    Returned (with_engine (Some (_parse_engine value)) data)
  else if eqb key (lit "structure") then Returned (set_str "structure" value data)
  else if eqb key (lit "myomer") then Returned (set_str "myomer" value data)
  else if eqb key (lit "heat_sinks") then
    Returned (with_heat_sinks (Some (_parse_heat_sinks value)) data)
  else if eqb key (lit "walk_mp") then
    match py_int value with
    | Some n => Returned (set_int "walk_mp" n data)
    | None => Returned (set_int "walk_mp" 0 data)
    end
  else if eqb key (lit "jump_mp") then
    match py_int value with
    | Some n => Returned (set_int "jump_mp" n data)
    | None => Returned (set_int "jump_mp" 0 data)
    end
  else if eqb key (lit "armor") then Returned (set_str "armor_type" value data)
  else if endswith (lit "_armor") key || endswith (lit "armor") key then
    let loc_key :=
      upper (strip (replace (lit "armor") [] (replace (lit "_armor") [] key))) in
    match py_int value with
    | Some n =>
        Returned (with_armor_allocation
                    (Dict.set loc_key n (armor_allocation data)) data)
    | None => Returned data
    end
  else if eqb key (lit "quirk") then
    Returned (with_quirks (quirks data ++ [value]) data)
  else if eqb key (lit "manufacturer") then
    Returned (set_str "manufacturer" value data)
  else if eqb key (lit "primaryfactory") then
    Returned (set_str "primary_factory" value data)
  else if eqb key (lit "systemmanufacturer") then
    if has_char ":"%char value then
      let (sys_type, sys_name) := split1 ":"%char value in
      Returned (with_system_manufacturers
                  (Dict.set (strip sys_type) (strip sys_name)
                            (system_manufacturers data)) data)
    else Returned data
  else Returned data.

(** ** The line scanner *)

(** The local variables of [_parse_lines].  [items_shared] records that
    [current_section_items] is the very list object stored in
    [data['criticals'][current_section]], so that appending to the one
    shows in the other. *)
Record state : Type := mkState {
  data : RawRecord;
  current_section : option str;
  current_section_items : list str;
  items_shared : bool;
  in_weapons_section : bool;
  in_fluff : bool;
  current_fluff_field : option str;
  fluff_buffer : list str
}.

Definition initial_state : state :=
  mkState empty_record None [] false false false None [].

Definition MECH_LOCATIONS : list str :=
  [lit "Head"; lit "Center Torso"; lit "Left Torso"; lit "Right Torso";
   lit "Left Arm"; lit "Right Arm"; lit "Left Leg"; lit "Right Leg"].

Definition fluff_fields : list str :=
  [lit "overview"; lit "capabilities"; lit "deployment"; lit "history";
   lit "variants"; lit "notable_pilots"; lit "notes"].

(** [x in xs] for a list of strings *)
Definition in_list (x : str) (xs : list str) : bool := existsb (eqb x) xs.

Definition nonempty {A} (l : list A) : bool :=
  match l with
  | [] => false
  | _ :: _ => true
  end.

(** Truth value of [current_section]: a name, and not the empty one. *)
Definition section_open (st : state) : bool :=
  match current_section st with
  | Some sec => nonempty sec
  | None => false
  end.

(** Whether the section is saved: [current_section and current_section_items]. *)
Definition section_pending (st : state) : bool :=
  section_open st && nonempty (current_section_items st).

(** [data['criticals'][current_section] = current_section_items], when the
    section has a name and items. *)
Definition save_section (st : state) : RawRecord :=
  match current_section st with
  | Some sec =>
      if section_pending st
      then with_criticals
             (Dict.set sec (current_section_items st) (criticals (data st)))
             (data st)
      else data st
  | None => data st
  end.

(** [data['fluff'][current_fluff_field] = '\n'.join(fluff_buffer).strip()],
    when a fluff field is open and its buffer has lines.  The field name
    is set whenever [in_fluff] is. *)
Definition save_fluff (st : state) : RawRecord :=
  if in_fluff st && nonempty (fluff_buffer st) then
    match current_fluff_field st with
    | Some field =>
        with_fluff
          (Dict.set field (strip (join [newline] (fluff_buffer st)))
                    (fluff (data st)))
          (data st)
    | None => data st
    end
  else data st.

(** The first fluff field whose name and colon start the lower-cased line. *)
Definition fluff_header (line_content : str) : option str :=
  find (fun field => startswith (field ++ lit ":") (lower line_content))
       fluff_fields.

(** A line that ends with a colon and has no other colon. *)
Definition header_shaped (line_content : str) : bool :=
  endswith (lit ":") line_content
  && negb (has_char ":"%char (removelast line_content)).

(** The body of the loop over the lines. *)
Definition process_line (st : state) (line : str) : outcome state :=
  let line_content := strip line in
  if negb (nonempty line_content) || startswith (lit "#") line_content then
    if in_fluff st && nonempty (fluff_buffer st) then
      Returned (mkState (save_fluff st) (current_section st)
                        (current_section_items st) (items_shared st)
                        (in_weapons_section st) false None [])
    else Returned st
  else
    match fluff_header line_content with
    | Some field =>
        Returned (mkState (save_fluff st) (current_section st)
                          (current_section_items st) (items_shared st)
                          (in_weapons_section st) true (Some field)
                          [strip (skipn (length field + 1) line_content)])
    | None =>
        if in_fluff st then
          Returned (mkState (data st) (current_section st)
                            (current_section_items st) (items_shared st)
                            (in_weapons_section st) true
                            (current_fluff_field st)
                            (fluff_buffer st ++ [line_content]))
        else if header_shaped line_content then
          let section_name := removelast line_content in
          if in_list section_name MECH_LOCATIONS
             || in_list section_name [lit "Head"; lit "Center Torso"]
          then
            Returned (mkState (save_section st) (Some section_name) [] false
                              false (in_fluff st) (current_fluff_field st)
                              (fluff_buffer st))
          else
            Returned (mkState (save_section st) (current_section st)
                              (current_section_items st)
                              (items_shared st || section_pending st)
                              (in_weapons_section st) (in_fluff st)
                              (current_fluff_field st) (fluff_buffer st))
        else if startswith (lit "weapons:") (lower line_content) then
          Returned (mkState (save_section st) None [] false true
                            (in_fluff st) (current_fluff_field st)
                            (fluff_buffer st))
        else if in_weapons_section st then
          if has_char ","%char line_content then
            let (weapon_name, loc) := split1 ","%char line_content in
            Returned (mkState
                        (with_weapons
                           (weapons (data st)
                            ++ [mkWeapon (strip weapon_name) (strip loc)])
                           (data st))
                        (current_section st) (current_section_items st)
                        (items_shared st) (in_weapons_section st)
                        (in_fluff st) (current_fluff_field st)
                        (fluff_buffer st))
          else Returned st
        else if has_char ":"%char line_content then
          let (key, value) := split1 ":"%char line_content in
          let key := replace (lit " ") (lit "_") (lower (strip key)) in
          let value := strip value in
          data' <- _parse_key_value key value (data st) ;;
          Returned (mkState data' (current_section st)
                            (current_section_items st) (items_shared st)
                            (in_weapons_section st) (in_fluff st)
                            (current_fluff_field st) (fluff_buffer st))
        else
          match current_section st with
          | Some sec =>
              if section_open st then
                let items := current_section_items st ++ [line_content] in
                Returned (mkState
                            (if items_shared st
                             then with_criticals
                                    (Dict.set sec items (criticals (data st)))
                                    (data st)
                             else data st)
                            (current_section st) items (items_shared st)
                            (in_weapons_section st) (in_fluff st)
                            (current_fluff_field st) (fluff_buffer st))
              else Returned st
          | None => Returned st
          end
    end.

(** The loop: the lines in order, stopping at an exception. *)
Fixpoint scan (st : state) (lines : list str) : outcome state :=
  match lines with
  | [] => Returned st
  | line :: rest => st' <- process_line st line ;; scan st' rest
  end.

(** What is saved after the loop: the last section, then the last fluff. *)
Definition finish (st : state) : RawRecord :=
  let d := save_section st in
  save_fluff (mkState d (current_section st) (current_section_items st)
                      (items_shared st) (in_weapons_section st) (in_fluff st)
                      (current_fluff_field st) (fluff_buffer st)).

(** The raw record [_parse_lines] hands to [_build_unit]. *)
Definition parse_record (lines : list str) : outcome RawRecord :=
  st <- scan initial_state lines ;; Returned (finish st).

End FieldInterpreter.

(** ** The output document *)

Record SerializedEngine : Type := mkSerializedEngine {
  engine_type : str;
  engine_rating : Z
}.

Record SerializedGyro : Type := mkSerializedGyro { gyro_type : str }.

Record SerializedStructure : Type := mkSerializedStructure { structure_type : str }.

(** An armor allocation value: an integer, or [{'front': f, 'rear': r}]. *)
Inductive armor_value : Type :=
| Scalar (points : Z)
| FrontRear (front rear : Z).

Record SerializedArmor : Type := mkSerializedArmor {
  armor_type : str;
  allocation : Dict.t ustr armor_value
}.

Record SerializedHeatSinks : Type := mkSerializedHeatSinks {
  heat_sink_type : str;
  heat_sink_count : Z
}.

Record SerializedMovement : Type := mkSerializedMovement {
  walk : Z;
  jump : Z;
  jumpJetType : option str;
  enhancements : option (list str)
}.

Record SerializedEquipment : Type := mkSerializedEquipment {
  equipment_id : str;
  equipment_location : str;
  slots : option (list Z);
  isRearMounted : option bool;
  linkedAmmo : option str
}.

Record SerializedFluff : Type := mkSerializedFluff {
  overview : option str;
  capabilities : option str;
  history : option str;
  deployment : option str;
  variants : option str;
  notableUnits : option str;
  manufacturer : option str;
  primaryFactory : option str;
  systemManufacturer : option (Dict.t str str)
}.

Record SerializedUnit : Type := mkSerializedUnit {
  id : str;
  chassis : str;
  model : str;
  unitType : str;
  configuration : str;
  techBase : str;
  rulesLevel : str;
  unit_era : str;
  year : Z;
  tonnage : Z;
  unit_engine : SerializedEngine;
  gyro : SerializedGyro;
  cockpit : str;
  structure : SerializedStructure;
  armor : SerializedArmor;
  heatSinks : SerializedHeatSinks;
  movement : SerializedMovement;
  equipment : list SerializedEquipment;
  criticalSlots : Dict.t str (list (option str));
  variant : option str;
  unit_quirks : option (list str);
  unit_fluff : option SerializedFluff;
  mulId : option Z;
  role : option str;
  source : option str
}.

(** ** The vocabulary tables

    The functions of [enum_mappings] that the assembler calls.  They are
    lookups outside this file of the repository: an interface here. *)

Class EnumMappings : Type := {
  map_tech_base : str -> str;
  map_rules_level : str -> str;
  map_engine_type : str -> str;
  map_structure_type : str -> str;
  map_armor_type : str -> str;
  map_heat_sink_type : str -> str;
  map_mech_location : str -> str;
  map_mech_config : str -> str;
  map_unit_type : str -> str;
  map_year_to_era : Z -> str;
  generate_id_from_name : str -> str -> str;
  normalize_equipment_id : str -> str
}.

(** ** The armor allocation builder *)

Definition loc_map : Dict.t ustr ustr :=
  [(ulit "LA", ulit "LEFT_ARM");
   (ulit "RA", ulit "RIGHT_ARM");
   (ulit "LT", ulit "LEFT_TORSO");
   (ulit "RT", ulit "RIGHT_TORSO");
   (ulit "CT", ulit "CENTER_TORSO");
   (ulit "HD", ulit "HEAD");
   (ulit "LL", ulit "LEFT_LEG");
   (ulit "RL", ulit "RIGHT_LEG");
   (ulit "RTL", ulit "LEFT_TORSO_REAR");
   (ulit "RTR", ulit "RIGHT_TORSO_REAR");
   (ulit "RTC", ulit "CENTER_TORSO_REAR")].

(** [loc_map.get(key, key)] *)
Definition mapped_loc (key : ustr) : ustr := Dict.get_default key key loc_map.

(** ['REAR' in mapped_loc] *)
Definition is_rear (mapped : ustr) : bool := contains (ulit "REAR") mapped.

(** [mapped_loc.replace('_REAR', '')] *)
Definition front_loc (mapped : ustr) : ustr := replace (ulit "_REAR") [] mapped.

(** First pass: the entries that are not rear facings, as scalars. *)
Definition collect_front (raw_allocation : Dict.t ustr Z)
    (allocation : Dict.t ustr armor_value) : Dict.t ustr armor_value :=
  fold_left
    (fun allocation '(key, value) =>
       if negb (is_rear (mapped_loc key))
       then Dict.set (mapped_loc key) (Scalar value) allocation
       else allocation)
    raw_allocation allocation.

(** One step of the second pass. *)
Definition merge_rear_entry (allocation : Dict.t ustr armor_value)
    (entry : ustr * Z) : Dict.t ustr armor_value :=
  let (key, value) := entry in
  if is_rear (mapped_loc key) then
    match Dict.get (front_loc (mapped_loc key)) allocation with
    | Some (Scalar front_value) =>
        Dict.set (front_loc (mapped_loc key)) (FrontRear front_value value)
                 allocation
    | Some (FrontRear _ _) => allocation
    | None => allocation
    end
  else allocation.

(** Second pass: the rear facings, merged into their front locations. *)
Definition merge_rear (raw_allocation : Dict.t ustr Z)
    (allocation : Dict.t ustr armor_value) : Dict.t ustr armor_value :=
  fold_left merge_rear_entry raw_allocation allocation.

(** [_build_armor_allocation] *)
Definition _build_armor_allocation (raw_allocation : Dict.t ustr Z)
    : Dict.t ustr armor_value :=
  merge_rear raw_allocation (collect_front raw_allocation Dict.empty).

(** ** The critical slot table builder *)

Definition slot_counts : Dict.t str nat :=
  [(lit "HEAD", 6); (lit "CENTER_TORSO", 12); (lit "LEFT_TORSO", 12);
   (lit "RIGHT_TORSO", 12); (lit "LEFT_ARM", 12); (lit "RIGHT_ARM", 12);
   (lit "LEFT_LEG", 6); (lit "RIGHT_LEG", 6);
   (lit "FRONT_LEFT_LEG", 6); (lit "FRONT_RIGHT_LEG", 6);
   (lit "REAR_LEFT_LEG", 6); (lit "REAR_RIGHT_LEG", 6)].

(** [slot_counts.get(mapped_location, 12)] *)
Definition max_slots (mapped_location : str) : nat :=
  Dict.get_default mapped_location 12 slot_counts.

(** One raw content line as a slot: [None] for the empty marker and for
    an empty line. *)
Definition slot_of_item (item : str) : option str :=
  if eqb item (lit "-Empty-") || negb (nonempty item) then None else Some item.

(** Trim or pad [slot_list] to [n] entries. *)
Definition normalize_slots (n : nat) (slot_list : list (option str))
    : list (option str) :=
  if n <? length slot_list then firstn n slot_list
  else if length slot_list <? n
       then slot_list ++ repeat None (n - length slot_list)
       else slot_list.

Section Assembler.

Context `{EnumMappings}.

(** [_build_critical_slots] *)
Definition _build_critical_slots (criticals : Dict.t str (list str))
    : Dict.t str (list (option str)) :=
  fold_left
    (fun slots '(location, items) =>
       let mapped_location := map_mech_location location in
       let slot_list := map slot_of_item items in
       Dict.set mapped_location
                (normalize_slots (max_slots mapped_location) slot_list) slots)
    criticals Dict.empty.

(** ** The equipment list builder *)

(** ['(R)' in name or '(Rear)' in name.lower()] *)
Definition is_rear_mounted (name : str) : bool :=
  contains (lit "(R)") name || contains (lit "(Rear)") (lower name).

(** [name.replace('(R)', '').replace('(r)', '').strip()] *)
Definition clean_name (name : str) : str :=
  strip (replace (lit "(r)") [] (replace (lit "(R)") [] name)).

(** [_build_equipment_list] *)
Definition _build_equipment_list (weapons : list weapon) : list SerializedEquipment :=
  map (fun w =>
         let is_rear := is_rear_mounted (name w) in
         mkSerializedEquipment
           (normalize_equipment_id (clean_name (name w)))
           (map_mech_location (location w))
           None
           (if is_rear then Some true else None)
           None)
      weapons.

(** ** The unit assembler *)

(** The year: the era field, 3025 when it is absent or not a number. *)
Definition year_of (d : RawRecord) : Z :=
  match era d with
  | None => 3025%Z
  | Some (inl n) => n
  | Some (inr text) =>
      match py_int text with
      | Some n => n
      | None => 3025%Z
      end
  end.

(** The fluff block: built when [data['fluff']] is not empty. *)
Definition fluff_of (d : RawRecord) : option SerializedFluff :=
  if Dict.truthy (fluff d) then
    Some (mkSerializedFluff
            (Dict.get (lit "overview") (fluff d))
            (Dict.get (lit "capabilities") (fluff d))
            (Dict.get (lit "history") (fluff d))
            (Dict.get (lit "deployment") (fluff d))
            None
            None
            (Dict.get (lit "manufacturer") (strs d))
            (Dict.get (lit "primary_factory") (strs d))
            (if Dict.truthy (system_manufacturers d)
             then Some (system_manufacturers d) else None))
  else None.

(** [_build_unit]: [None] when the chassis is the default. *)
Definition _build_unit (d : RawRecord) : option SerializedUnit :=
  let chassis := Dict.get_default (lit "chassis") (lit "Unknown") (strs d) in
  let model := Dict.get_default (lit "model") (lit "Unknown") (strs d) in
  if eqb chassis (lit "Unknown") then None
  else
    let unit_id := generate_id_from_name chassis model in
    let year := year_of d in
    let era := map_year_to_era year in
    let engine_data :=
      match engine d with
      | Some e => e
      | None => mkEngine 0 (lit "Fusion")
      end in
    let engine :=
      mkSerializedEngine (map_engine_type (type engine_data)) (rating engine_data) in
    let gyro := mkSerializedGyro (lit "STANDARD") in
    let cockpit := lit "STANDARD" in
    let structure :=
      mkSerializedStructure
        (map_structure_type
           (Dict.get_default (lit "structure") (lit "Standard") (strs d))) in
    let hs_data :=
      match heat_sinks d with
      | Some h => h
      | None => mkHeatSinks 10 (lit "Single")
      end in
    let heat_sinks :=
      mkSerializedHeatSinks (map_heat_sink_type (hs_type hs_data)) (hs_count hs_data) in
    let armor :=
      mkSerializedArmor
        (map_armor_type
           (Dict.get_default (lit "armor_type") (lit "Standard") (strs d)))
        (_build_armor_allocation (armor_allocation d)) in
    let movement :=
      mkSerializedMovement
        (Dict.get_default (lit "walk_mp") 0%Z (ints d))
        (Dict.get_default (lit "jump_mp") 0%Z (ints d))
        None None in
    let equipment := _build_equipment_list (weapons d) in
    let critical_slots := _build_critical_slots (criticals d) in
    let config := Dict.get_default (lit "config") (lit "Biped") (strs d) in
    Some (mkSerializedUnit
            unit_id chassis model
            (map_unit_type config)
            (map_mech_config config)
            (map_tech_base
               (Dict.get_default (lit "techbase") (lit "Inner Sphere") (strs d)))
            (map_rules_level
               (Dict.get_default (lit "rules_level") (lit "1") (strs d)))
            era year
            (Dict.get_default (lit "mass") 0%Z (ints d))
            engine gyro cockpit structure armor heat_sinks movement
            equipment critical_slots
            None
            (if nonempty (quirks d) then Some (quirks d) else None)
            (fluff_of d)
            (Dict.get (lit "mul_id") (ints d))
            (Dict.get (lit "role") (strs d))
            (Dict.get (lit "source") (strs d)))
  .

(** [_parse_lines]: the scan of the lines, then the assembly. *)
Definition _parse_lines (int_of_float : str -> conversion) (lines : list str)
    : outcome (option SerializedUnit) :=
  d <- parse_record int_of_float lines ;; Returned (_build_unit d).

End Assembler.

(** ** Patterns and events the properties speak of *)

(** The text a qualifier group stands for in the engine string. *)
Definition qualifier_text (g3 : option str) : str :=
  match g3 with
  | Some q => lit "(" ++ q ++ lit ")"
  | None => []
  end.

(** The engine pattern read as a description of the text: [value] is
    digits [g1], blanks, a run [g2] without a newline, an optional
    parenthesised qualifier [g3] that is not empty and holds no closing
    parenthesis, and at most one final newline. *)
Definition engine_pattern (value g1 g2 : str) (g3 : option str) : Prop :=
  exists ws tail : str,
    value = g1 ++ ws ++ g2 ++ qualifier_text g3 ++ tail
    /\ g1 <> [] /\ forallb isdigit g1 = true
    /\ forallb isspace ws = true
    /\ has_char newline g2 = false
    /\ (forall q, g3 = Some q -> q <> [] /\ has_char ")"%char q = false)
    /\ at_end tail = true.

(** The line [line], read in state [st], is appended to the content lines
    of the section [raw]. *)
Definition appends_to (int_of_float : str -> conversion) (st : state)
    (line : str) (raw : str) : Prop :=
  current_section st = Some raw
  /\ exists st', process_line int_of_float st line = Returned st'
       /\ current_section_items st' = current_section_items st ++ [strip line].

(** A section with a name and items: what the next save will write. *)
Definition pending (loc : str) (st : state) : Prop :=
  current_section st = Some loc /\ current_section_items st <> [].

(** What holds of every state the scan reaches: an open fluff field has
    a name, and an open section has a name that is not empty. *)
Definition well_formed (st : state) : Prop :=
  (in_fluff st = true -> exists field, current_fluff_field st = Some field)
  /\ (forall sec, current_section st = Some sec -> sec <> []).

(** ** Tables and a number reader for the examples

    The examples run the assembler with the small tables below: locations
    are upper-cased with underscores for blanks, the other names are kept,
    and a mass is read when it is a plain integer literal. *)

Definition sample_location (raw : str) : str :=
  map (fun c => if eqb c " "%char then "_"%char
                else let n := code c in
                     if ((97 <=? n) && (n <=? 122))%N then ascii_of_N (n - 32)
                     else c) raw.

#[export] Instance sample_mappings : EnumMappings := {|
  map_tech_base := fun x => x;
  map_rules_level := fun x => x;
  map_engine_type := fun x => x;
  map_structure_type := fun x => x;
  map_armor_type := fun x => x;
  map_heat_sink_type := fun x => x;
  map_mech_location := sample_location;
  map_mech_config := fun x => x;
  map_unit_type := fun _ => lit "BattleMech";
  map_year_to_era := fun _ => lit "ERA";
  generate_id_from_name := fun c m => c ++ lit "-" ++ m;
  normalize_equipment_id := fun x => x
|}.

Definition sample_int_of_float (value : str) : conversion :=
  match py_int value with
  | Some n => Converted n
  | None => ValueError
  end.

(** ** Kinds of lines *)

(** A blank line or a comment: what the loop skips. *)
Definition skipped (line : str) : bool :=
  negb (nonempty (strip line)) || startswith (lit "#") (strip line).

(** A line that is not skipped and holds no colon. *)
Definition plain_line (line : str) : bool :=
  negb (skipped line) && negb (has_char ":"%char (strip line)).

(** The weapon a line of the weapons section stands for. *)
Definition weapon_of_line (line : str) : weapon :=
  mkWeapon (strip (fst (split1 ","%char (strip line))))
           (strip (snd (split1 ","%char (strip line)))).

(** A line of the weapons section: not skipped, no fluff header, no
    section header and not the weapons header. *)
Definition weapons_line (line : str) : bool :=
  negb (skipped line)
  && match fluff_header (strip line) with Some _ => false | None => true end
  && negb (header_shaped (strip line))
  && negb (startswith (lit "weapons:") (lower (strip line))).

(** The keys [_parse_key_value] knows by name. *)
Definition known_keys : list str :=
  [lit "chassis"; lit "model"; lit "mul_id"; lit "config"; lit "techbase";
   lit "era"; lit "source"; lit "rules_level"; lit "role"; lit "mass";
   lit "engine"; lit "structure"; lit "myomer"; lit "heat_sinks";
   lit "walk_mp"; lit "jump_mp"; lit "armor"; lit "quirk";
   lit "manufacturer"; lit "primaryfactory"; lit "systemmanufacturer"].

(** What the scan keeps true of its state: the open section is one of
    the eight locations; every location of the critical-slot lines is one
    of them and has a line; every name of the fluff dictionary is a fluff
    field; an open fluff field is one of them and its buffer has a line. *)
Definition scan_invariant (st : state) : Prop :=
  (forall sec, current_section st = Some sec -> In sec MECH_LOCATIONS)
  /\ (forall k v, In (k, v) (criticals (data st)) ->
                  In k MECH_LOCATIONS /\ v <> [])
  /\ (forall k v, In (k, v) (fluff (data st)) -> In k fluff_fields)
  /\ (in_fluff st = true ->
      fluff_buffer st <> []
      /\ exists field, current_fluff_field st = Some field
                       /\ In field fluff_fields).

(** ** [parse_file]

    What [parse_file] returns once the lines of the file are read: the
    result of [_parse_lines], and [None] for any exception. *)

Definition parse_file (int_of_float : str -> conversion) `{EnumMappings}
    (lines : list str) : option SerializedUnit :=
  match _parse_lines int_of_float lines with
  | Returned unit => unit
  | Raised => None
  end.

(** ** [dataclass_to_dict]

    The values the conversion walks over: scalars, lists, dictionaries
    with string keys, and instances of the dataclasses above, which are
    their fields in the order of the class. *)

#[local] Unset Elimination Schemes.

Inductive pyvalue : Type :=
| PNone
| PBool (b : bool)
| PInt (n : Z)
| PStr (text : ustr)
| PList (items : list pyvalue)
| PDict (entries : list (ustr * pyvalue))
| PData (fields : list (string * pyvalue)).

#[local] Set Elimination Schemes.

(** [dataclass_to_dict] *)
Fixpoint dataclass_to_dict (obj : pyvalue) : pyvalue :=
  match obj with
  | PData fields =>
      PDict
        ((fix convert (fs : list (string * pyvalue)) : list (ustr * pyvalue) :=
            match fs with
            | [] => []
            | (field_name, value) :: rest =>
                match dataclass_to_dict value with
                | PNone => convert rest
                | converted => (ulit field_name, converted) :: convert rest
                end
            end) fields)
  | PList items => PList (map dataclass_to_dict items)
  | PDict entries =>
      PDict
        ((fix convert (es : list (ustr * pyvalue)) : list (ustr * pyvalue) :=
            match es with
            | [] => []
            | (k, v) :: rest => (k, dataclass_to_dict v) :: convert rest
            end) entries)
  | _ => obj
  end.

(** Whether a value holds an instance of a dataclass somewhere. *)
Fixpoint has_dataclass (obj : pyvalue) : bool :=
  match obj with
  | PData _ => true
  | PList items => existsb has_dataclass items
  | PDict entries =>
      (fix any (es : list (ustr * pyvalue)) : bool :=
         match es with
         | [] => false
         | (_, v) :: rest => has_dataclass v || any rest
         end) entries
  | _ => false
  end.

(** [value.get(key)] of a converted value, [None] when it is no
    dictionary. *)
Definition json_get (key : ustr) (value : pyvalue) : option pyvalue :=
  match value with
  | PDict entries => Dict.get key entries
  | _ => None
  end.

(** The dataclass instances as values. *)

Definition of_str (text : str) : pyvalue := PStr (map code text).

Definition of_option {A} (f : A -> pyvalue) (o : option A) : pyvalue :=
  match o with
  | Some a => f a
  | None => PNone
  end.

Definition of_str_dict (d : Dict.t str str) : pyvalue :=
  PDict (map (fun kv => (map code (fst kv), of_str (snd kv))) d).

Definition engine_value (e : SerializedEngine) : pyvalue :=
  PData [("type"%string, of_str (engine_type e));
         ("rating"%string, PInt (engine_rating e))].

Definition gyro_value (g : SerializedGyro) : pyvalue :=
  PData [("type"%string, of_str (gyro_type g))].

Definition structure_value (s : SerializedStructure) : pyvalue :=
  PData [("type"%string, of_str (structure_type s))].

Definition armor_point_value (a : armor_value) : pyvalue :=
  match a with
  | Scalar n => PInt n
  | FrontRear f r => PDict [(ulit "front", PInt f); (ulit "rear", PInt r)]
  end.

Definition armor_to_value (a : SerializedArmor) : pyvalue :=
  PData [("type"%string, of_str (armor_type a));
         ("allocation"%string,
          PDict (map (fun kv => (fst kv, armor_point_value (snd kv)))
                     (allocation a)))].

Definition heat_sinks_value (h : SerializedHeatSinks) : pyvalue :=
  PData [("type"%string, of_str (heat_sink_type h));
         ("count"%string, PInt (heat_sink_count h))].

Definition movement_value (m : SerializedMovement) : pyvalue :=
  PData [("walk"%string, PInt (walk m));
         ("jump"%string, PInt (jump m));
         ("jumpJetType"%string, of_option of_str (jumpJetType m));
         ("enhancements"%string,
          of_option (fun l => PList (map of_str l)) (enhancements m))].

Definition equipment_value (e : SerializedEquipment) : pyvalue :=
  PData [("id"%string, of_str (equipment_id e));
         ("location"%string, of_str (equipment_location e));
         ("slots"%string, of_option (fun l => PList (map PInt l)) (slots e));
         ("isRearMounted"%string, of_option PBool (isRearMounted e));
         ("linkedAmmo"%string, of_option of_str (linkedAmmo e))].

Definition fluff_value (f : SerializedFluff) : pyvalue :=
  PData [("overview"%string, of_option of_str (overview f));
         ("capabilities"%string, of_option of_str (capabilities f));
         ("history"%string, of_option of_str (history f));
         ("deployment"%string, of_option of_str (deployment f));
         ("variants"%string, of_option of_str (variants f));
         ("notableUnits"%string, of_option of_str (notableUnits f));
         ("manufacturer"%string, of_option of_str (manufacturer f));
         ("primaryFactory"%string, of_option of_str (primaryFactory f));
         ("systemManufacturer"%string,
          of_option of_str_dict (systemManufacturer f))].

Definition slots_value (l : list (option str)) : pyvalue :=
  PList (map (of_option of_str) l).

Definition unit_value (u : SerializedUnit) : pyvalue :=
  PData [("id"%string, of_str (id u));
         ("chassis"%string, of_str (chassis u));
         ("model"%string, of_str (model u));
         ("unitType"%string, of_str (unitType u));
         ("configuration"%string, of_str (configuration u));
         ("techBase"%string, of_str (techBase u));
         ("rulesLevel"%string, of_str (rulesLevel u));
         ("era"%string, of_str (unit_era u));
         ("year"%string, PInt (year u));
         ("tonnage"%string, PInt (tonnage u));
         ("engine"%string, engine_value (unit_engine u));
         ("gyro"%string, gyro_value (gyro u));
         ("cockpit"%string, of_str (cockpit u));
         ("structure"%string, structure_value (structure u));
         ("armor"%string, armor_to_value (armor u));
         ("heatSinks"%string, heat_sinks_value (heatSinks u));
         ("movement"%string, movement_value (movement u));
         ("equipment"%string, PList (map equipment_value (equipment u)));
         ("criticalSlots"%string,
          PDict (map (fun kv => (map code (fst kv), slots_value (snd kv)))
                     (criticalSlots u)));
         ("variant"%string, of_option of_str (variant u));
         ("quirks"%string,
          of_option (fun l => PList (map of_str l)) (unit_quirks u));
         ("fluff"%string, of_option fluff_value (unit_fluff u));
         ("mulId"%string, of_option PInt (mulId u));
         ("role"%string, of_option of_str (role u));
         ("source"%string, of_option of_str (source u))].

(** ** The file name of a unit ([convert_directory]) *)

(** The characters that are replaced in a file name. *)
Definition invalid_chars : list ascii :=
  ["/"%char; "092"%char; ":"%char; "*"%char; "?"%char; "034"%char;
   "<"%char; ">"%char; "|"%char].

(** [safe_name]: chassis, a blank and model, each invalid character
    replaced by a hyphen, one character of the list after the other. *)
Definition safe_name (chassis model : str) : str :=
  fold_left (fun name char => replace [char] (lit "-") name)
            invalid_chars (chassis ++ lit " " ++ model).

Definition json_filename (chassis model : str) : str :=
  safe_name chassis model ++ lit ".json".

(** ** [convert_directory]

    The loop over the files of the source directory, in the order the walk
    of the directory yields them.  A file is what reading it gives: its
    lines, or nothing when it cannot be read, which [parse_file] turns
    into [None].  The two folder functions of [enum_mappings] and the
    writing of a document (making the folder, opening the file, dumping
    the document) are parameters; writing tells whether it went through
    or raised, and changes the disk either way. *)

Record target : Type := mkTarget {
  era_folder : str;
  rules_folder : str;
  file_name : str
}.

Record progress (disk : Type) : Type := mkProgress {
  success_count : nat;
  fail_count : nat;
  written : disk
}.

Section Directory.

Context {M : EnumMappings}.
Variable int_of_float : str -> conversion.
Variable get_era_folder_name : str -> str.
Variable get_rules_level_folder_name : str -> str.
Variable disk : Type.
Variable write_json : disk -> target -> pyvalue -> disk * bool.

Definition read_and_parse (content : option (list str))
  : option SerializedUnit :=
  match content with
  | Some lines => parse_file int_of_float lines
  | None => None
  end.

(** [era_filter and era_filter.lower() not in era_folder.lower()] *)
Definition filtered_out (era_filter : option str) (folder : str) : bool :=
  match era_filter with
  | Some f => nonempty f && negb (contains (lower f) (lower folder))
  | None => false
  end.

Definition convert_step (era_filter : option str) (p : progress disk)
    (content : option (list str)) : progress disk :=
  match read_and_parse content with
  | None => mkProgress (success_count p) (S (fail_count p)) (written p)
  | Some unit =>
      let era_folder := get_era_folder_name (unit_era unit) in
      let rules_folder := get_rules_level_folder_name (rulesLevel unit) in
      if filtered_out era_filter era_folder then p
      else
        let json_file :=
          mkTarget era_folder rules_folder
                   (json_filename (chassis unit) (model unit)) in
        let unit_dict := dataclass_to_dict (unit_value unit) in
        match write_json (written p) json_file unit_dict with
        | (d, true) => mkProgress (S (success_count p)) (fail_count p) d
        | (d, false) => mkProgress (success_count p) (S (fail_count p)) d
        end
  end.

Definition convert_directory (contents : list (option (list str)))
    (era_filter : option str) (d : disk) : progress disk :=
  fold_left (convert_step era_filter) contents (mkProgress 0 0 d).

(** A file that gives no unit. *)
Definition gives_no_unit (content : option (list str)) : bool :=
  match read_and_parse content with
  | Some _ => false
  | None => true
  end.

(** A file that gives a unit the era filter lets through. *)
Definition passes_filter (era_filter : option str)
    (content : option (list str)) : bool :=
  match read_and_parse content with
  | Some unit =>
      negb (filtered_out era_filter (get_era_folder_name (unit_era unit)))
  | None => false
  end.

End Directory.

(** * Properties *)

(** ** Equality tests *)

#[export] Instance EqbOk_ascii : EqbOk ascii.
Proof. exact Ascii.eqb_eq. Qed.

#[export] Instance EqbOk_N : EqbOk N.
Proof. exact N.eqb_eq. Qed.

#[export] Instance EqbOk_list {A} `{EqbOk A} : EqbOk (list A).
Proof.
  intros s; induction s as [|a s IH]; intros [|b t]; cbn;
    try (split; [discriminate | congruence]); try tauto.
  change (eqb a b && eqb s t = true <-> a :: s = b :: t).
  rewrite andb_true_iff, (eqb_eq a b), IH. split.
  - intros [-> ->]; reflexivity.
  - intros E; inversion E; auto.
Qed.

Lemma eqb_refl {A} `{EqbOk A} (a : A) : eqb a a = true.
Proof. apply eqb_eq; reflexivity. Qed.

Lemma eqb_neq {A} `{EqbOk A} (a b : A) : eqb a b = false <-> a <> b.
Proof.
  split.
  - intros E ->. rewrite eqb_refl in E. discriminate.
  - intros N. destruct (eqb a b) eqn:E; [|reflexivity].
    apply eqb_eq in E. contradiction.
Qed.

(** ** Dictionaries *)

Section DictFacts.

Context {K V : Type} `{EqbOk K}.

Lemma get_set_same (k : K) (v : V) (d : Dict.t K V) :
  Dict.get k (Dict.set k v d) = Some v.
Proof.
  induction d as [|[k' v'] d IH]; cbn.
  - rewrite eqb_refl. reflexivity.
  - destruct (eqb k k') eqn:E; cbn; rewrite E; auto.
Qed.

Lemma get_set_other (k k' : K) (v : V) (d : Dict.t K V) :
  k' <> k -> Dict.get k' (Dict.set k v d) = Dict.get k' d.
Proof.
  intros N. induction d as [|[k0 v0] d IH]; cbn.
  - apply eqb_neq in N. rewrite N. reflexivity.
  - destruct (eqb k k0) eqn:E; cbn.
    + apply eqb_eq in E. subst k0.
      apply eqb_neq in N. rewrite N. reflexivity.
    + rewrite IH. reflexivity.
Qed.

Lemma get_set (k k' : K) (v : V) (d : Dict.t K V) :
  Dict.get k' (Dict.set k v d) = if eqb k' k then Some v else Dict.get k' d.
Proof.
  destruct (eqb k' k) eqn:E.
  - apply eqb_eq in E. subst. apply get_set_same.
  - apply eqb_neq in E. apply get_set_other; assumption.
Qed.

Lemma get_In (k : K) (v : V) (d : Dict.t K V) :
  Dict.get k d = Some v -> In (k, v) d.
Proof.
  induction d as [|[k' v'] d IH]; cbn; [discriminate|].
  destruct (eqb k k') eqn:E.
  - apply eqb_eq in E. intros [= ->]. subst. left; reflexivity.
  - intros G. right. auto.
Qed.

Lemma In_mem (k : K) (v : V) (d : Dict.t K V) :
  In (k, v) d -> Dict.mem k d = true.
Proof.
  unfold Dict.mem. induction d as [|[k' v'] d IH]; cbn; [tauto|].
  intros [E | I].
  - inversion E; subst. rewrite eqb_refl. reflexivity.
  - destruct (eqb k k'); auto.
Qed.

Lemma mem_set (k k' : K) (v : V) (d : Dict.t K V) :
  Dict.mem k' (Dict.set k v d) = eqb k' k || Dict.mem k' d.
Proof.
  unfold Dict.mem. rewrite get_set. destruct (eqb k' k); reflexivity.
Qed.

End DictFacts.

(** ** The critical slot table *)

Lemma normalize_slots_length (n : nat) (l : list (option str)) :
  length (normalize_slots n l) = n.
Proof.
  unfold normalize_slots.
  destruct (n <? length l) eqn:E1.
  - apply Nat.ltb_lt in E1. rewrite length_firstn. lia.
  - apply Nat.ltb_ge in E1. destruct (length l <? n) eqn:E2.
    + apply Nat.ltb_lt in E2. rewrite length_app, repeat_length. lia.
    + apply Nat.ltb_ge in E2. lia.
Qed.

Lemma normalize_slots_cases (n : nat) (l : list (option str)) :
  (n < length l -> normalize_slots n l = firstn n l)
  /\ (length l <= n -> normalize_slots n l = l ++ repeat None (n - length l)).
Proof.
  unfold normalize_slots. split; intros L.
  - apply Nat.ltb_lt in L. rewrite L. reflexivity.
  - assert (E : (n <? length l) = false) by (apply Nat.ltb_ge; lia).
    rewrite E. destruct (length l <? n) eqn:E2; [reflexivity|].
    apply Nat.ltb_ge in E2. replace (n - length l) with 0 by lia.
    cbn. rewrite app_nil_r. reflexivity.
Qed.

(** The capacity table read as a rule: 6 for the head and the legs, 12 for
    every other name. *)
Lemma max_slots_rule (loc : str) :
  max_slots loc =
  if in_list loc [lit "HEAD"; lit "LEFT_LEG"; lit "RIGHT_LEG";
                  lit "FRONT_LEFT_LEG"; lit "FRONT_RIGHT_LEG";
                  lit "REAR_LEFT_LEG"; lit "REAR_RIGHT_LEG"]
  then 6 else 12.
Proof.
  unfold max_slots, Dict.get_default, slot_counts, in_list.
  cbn [Dict.get existsb].
  repeat match goal with
         | |- context [eqb loc ?x] =>
             let E := fresh "E" in
             destruct (eqb loc x) eqn:E;
             [apply eqb_eq in E; subst loc; vm_compute; reflexivity|]
         end.
  reflexivity.
Qed.

Section CriticalSlots.

Context `{EnumMappings}.

Lemma build_critical_slots_origin (criticals : Dict.t str (list str))
    (acc : Dict.t str (list (option str))) (loc : str) (sl : list (option str)) :
  Dict.get loc
    (fold_left
       (fun slots '(location, items) =>
          Dict.set (map_mech_location location)
            (normalize_slots (max_slots (map_mech_location location))
                             (map slot_of_item items)) slots)
       criticals acc) = Some sl ->
  Dict.get loc acc = Some sl
  \/ exists raw items,
       In (raw, items) criticals /\ map_mech_location raw = loc
       /\ sl = normalize_slots (max_slots loc) (map slot_of_item items).
Proof.
  revert acc. induction criticals as [|[raw items] rest IH]; intros acc G; cbn in G.
  - left; exact G.
  - apply IH in G. destruct G as [G | (raw' & items' & I & M & E)].
    + rewrite get_set in G. destruct (eqb loc (map_mech_location raw)) eqn:E.
      * apply eqb_eq in E. injection G as <-. right. exists raw, items.
        subst loc. repeat split. left; reflexivity.
      * left; exact G.
    + right. exists raw', items'. repeat split; auto. right; exact I.
Qed.

(** C1.  In every unit that [_build_unit] assembles, each location of the
    critical-slot table holds exactly as many entries as the capacity of
    that location: 6 for HEAD and the leg names (quad legs too), 12 for any
    other name.  The entries are those of a raw section mapped to the
    location, each content line turned into a slot: the first [capacity]
    of them, in order, when there are more, and all of them followed by
    [None] entries up to the capacity when there are fewer. *)
Theorem critical_slots_have_capacity (d : RawRecord) (u : SerializedUnit)
    (loc : str) (sl : list (option str)) :
  _build_unit d = Some u ->
  Dict.get loc (criticalSlots u) = Some sl ->
  length sl = max_slots loc
  /\ max_slots loc =
     (if in_list loc [lit "HEAD"; lit "LEFT_LEG"; lit "RIGHT_LEG";
                      lit "FRONT_LEFT_LEG"; lit "FRONT_RIGHT_LEG";
                      lit "REAR_LEFT_LEG"; lit "REAR_RIGHT_LEG"]
      then 6 else 12)
  /\ exists raw items,
       In (raw, items) (criticals d) /\ map_mech_location raw = loc
       /\ (max_slots loc < length items ->
           sl = firstn (max_slots loc) (map slot_of_item items))
       /\ (length items <= max_slots loc ->
           sl = map slot_of_item items
                ++ repeat None (max_slots loc - length items)).
Proof.
  intros B G.
  assert (S : criticalSlots u = _build_critical_slots (criticals d)).
  { unfold _build_unit in B.
    destruct (eqb _ (lit "Unknown")); [discriminate|].
    injection B as <-. reflexivity. }
  rewrite S in G. unfold _build_critical_slots in G.
  apply build_critical_slots_origin in G.
  destruct G as [G | (raw & items & I & M & E)]; [discriminate|].
  split; [subst sl; apply normalize_slots_length|].
  split; [apply max_slots_rule|].
  exists raw, items. repeat split; auto.
  - intros L. subst sl. apply normalize_slots_cases. rewrite length_map. exact L.
  - intros L. subst sl.
    rewrite <- (length_map slot_of_item items).
    apply normalize_slots_cases. rewrite length_map. exact L.
Qed.

End CriticalSlots.

(** A head section of eight lines keeps its first six; an arm section of
    three lines is padded to twelve. *)
Lemma critical_slots_have_capacity_witness :
  let d := with_criticals
             [(lit "Head", [lit "a"; lit "b"; lit "-Empty-"; lit "d";
                            lit "e"; lit "f"; lit "g"; lit "h"]);
              (lit "Left Arm", [lit "Shoulder"; lit "-Empty-"; lit "Hand"])]
             (set_str "chassis" (lit "Atlas") empty_record) in
  exists u, _build_unit d = Some u
    /\ Dict.get (lit "HEAD") (criticalSlots u)
       = Some [Some (lit "a"); Some (lit "b"); None; Some (lit "d");
               Some (lit "e"); Some (lit "f")]
    /\ Dict.get (lit "LEFT_ARM") (criticalSlots u)
       = Some ([Some (lit "Shoulder"); None; Some (lit "Hand")]
               ++ repeat None 9)
    /\ length [Some (lit "a"); Some (lit "b"); None; Some (lit "d");
               Some (lit "e"); Some (lit "f")] = max_slots (lit "HEAD")
    /\ length ([Some (lit "Shoulder"); None; Some (lit "Hand")]
               ++ repeat None 9) = max_slots (lit "LEFT_ARM").
Proof.
  intros d.
  destruct (_build_unit d) as [u|] eqn:B; [|vm_compute in B; discriminate].
  exists u. split; [reflexivity|].
  assert (G : Dict.get (lit "HEAD") (criticalSlots u)
              = Some [Some (lit "a"); Some (lit "b"); None; Some (lit "d");
                      Some (lit "e"); Some (lit "f")]).
  { vm_compute in B. injection B as <-. vm_compute. reflexivity. }
  assert (G' : Dict.get (lit "LEFT_ARM") (criticalSlots u)
               = Some ([Some (lit "Shoulder"); None; Some (lit "Hand")]
                       ++ repeat None 9)).
  { vm_compute in B. injection B as <-. vm_compute. reflexivity. }
  split; [exact G|]. split; [exact G'|]. split.
  - exact (proj1 (critical_slots_have_capacity d (lit "HEAD") B G)).
  - exact (proj1 (critical_slots_have_capacity d (lit "LEFT_ARM") B G')).
Defined.

(** ** The armor allocation *)

Lemma fold_left_cons_app {A B} (f : A -> B -> A) (l1 : list B) (x : B)
    (l2 : list B) (a : A) :
  fold_left f (l1 ++ x :: l2) a = fold_left f l2 (f (fold_left f l1 a) x).
Proof. rewrite fold_left_app. reflexivity. Qed.

(** The first pass leaves a location alone when no front entry maps to it. *)
Lemma collect_front_untouched (raw : Dict.t ustr Z)
    (acc : Dict.t ustr armor_value) (loc : ustr) :
  (forall k v, In (k, v) raw -> is_rear (mapped_loc k) = false ->
               mapped_loc k <> loc) ->
  Dict.get loc (collect_front raw acc) = Dict.get loc acc.
Proof.
  unfold collect_front. revert acc.
  induction raw as [|[k v] raw IH]; intros acc N; cbn; [reflexivity|].
  rewrite IH by (intros; eapply N; [right|]; eauto).
  destruct (is_rear (mapped_loc k)) eqn:R; cbn; [reflexivity|].
  apply get_set_other. intros E. apply (N k v); auto. left; reflexivity.
Qed.

(** After the first pass every location holds a scalar, under a name
    that is not a rear facing and that a front entry maps to. *)
Lemma collect_front_keys (raw : Dict.t ustr Z) (acc : Dict.t ustr armor_value)
    (loc : ustr) (a : armor_value) :
  Dict.get loc (collect_front raw acc) = Some a ->
  Dict.get loc acc = Some a
  \/ exists k v, In (k, v) raw /\ is_rear (mapped_loc k) = false
                 /\ mapped_loc k = loc /\ a = Scalar v.
Proof.
  unfold collect_front. revert acc.
  induction raw as [|[k v] raw IH]; intros acc G; cbn in G; [left; exact G|].
  apply IH in G. destruct G as [G | (k' & v' & I & R & M & E)].
  - destruct (is_rear (mapped_loc k)) eqn:R; cbn in G; [left; exact G|].
    rewrite get_set in G. destruct (eqb loc (mapped_loc k)) eqn:E.
    + apply eqb_eq in E. injection G as <-. right. exists k, v.
      repeat split; auto. left; reflexivity.
    + left; exact G.
  - right. exists k', v'. repeat split; auto. right; exact I.
Qed.

(** The second pass never adds a location. *)
Lemma merge_rear_absent (raw : Dict.t ustr Z) (acc : Dict.t ustr armor_value)
    (loc : ustr) :
  Dict.get loc acc = None -> Dict.get loc (merge_rear raw acc) = None.
Proof.
  unfold merge_rear. revert acc.
  induction raw as [|[k v] raw IH]; intros acc G; cbn; [exact G|].
  apply IH. destruct (is_rear (mapped_loc k)); [|exact G].
  destruct (Dict.get (front_loc (mapped_loc k)) acc) as [[f|f r]|] eqn:F;
    try exact G.
  rewrite get_set. destruct (eqb loc (front_loc (mapped_loc k))) eqn:E; [|exact G].
  apply eqb_eq in E. subst loc. congruence.
Qed.

(** The second pass never changes a composite value. *)
Lemma merge_rear_composite (raw : Dict.t ustr Z) (acc : Dict.t ustr armor_value)
    (loc : ustr) (f r : Z) :
  Dict.get loc acc = Some (FrontRear f r) ->
  Dict.get loc (merge_rear raw acc) = Some (FrontRear f r).
Proof.
  unfold merge_rear. revert acc.
  induction raw as [|[k v] raw IH]; intros acc G; cbn; [exact G|].
  apply IH. destruct (is_rear (mapped_loc k)); [|exact G].
  destruct (Dict.get (front_loc (mapped_loc k)) acc) as [[f'|f' r']|] eqn:F;
    try exact G.
  rewrite get_set. destruct (eqb loc (front_loc (mapped_loc k))) eqn:E; [|exact G].
  apply eqb_eq in E. subst loc. congruence.
Qed.

(** The second pass leaves a location alone when no rear entry has it as
    its front location. *)
Lemma merge_rear_untouched (raw : Dict.t ustr Z) (acc : Dict.t ustr armor_value)
    (loc : ustr) :
  (forall k v, In (k, v) raw -> is_rear (mapped_loc k) = true ->
               front_loc (mapped_loc k) <> loc) ->
  Dict.get loc (merge_rear raw acc) = Dict.get loc acc.
Proof.
  unfold merge_rear. revert acc.
  induction raw as [|[k v] raw IH]; intros acc N; cbn; [reflexivity|].
  rewrite IH by (intros; eapply N; [right|]; eauto).
  destruct (is_rear (mapped_loc k)) eqn:R; [|reflexivity].
  destruct (Dict.get (front_loc (mapped_loc k)) acc) as [[f|f r]|] eqn:F;
    try reflexivity.
  apply get_set_other. intros E. apply (N k v); auto. left; reflexivity.
Qed.

(** A value of the second pass at a scalar location is that scalar or a
    composite with it in front. *)
Lemma merge_rear_scalar (raw : Dict.t ustr Z) (acc : Dict.t ustr armor_value)
    (loc : ustr) (f : Z) :
  Dict.get loc acc = Some (Scalar f) ->
  Dict.get loc (merge_rear raw acc) = Some (Scalar f)
  \/ exists k r, In (k, r) raw /\ is_rear (mapped_loc k) = true
                 /\ front_loc (mapped_loc k) = loc
                 /\ Dict.get loc (merge_rear raw acc) = Some (FrontRear f r).
Proof.
  unfold merge_rear. revert acc.
  induction raw as [|[k v] raw IH]; intros acc G; cbn; [left; exact G|].
  destruct (is_rear (mapped_loc k)) eqn:R.
  - destruct (eqb loc (front_loc (mapped_loc k))) eqn:E.
    + apply eqb_eq in E. subst loc. rewrite G. right. exists k, v.
      split; [left; reflexivity|]. split; [exact R|]. split; [reflexivity|].
      apply (merge_rear_composite raw). apply get_set_same.
    + assert (G' : Dict.get loc
                (match Dict.get (front_loc (mapped_loc k)) acc with
                 | Some (Scalar fv) =>
                     Dict.set (front_loc (mapped_loc k)) (FrontRear fv v) acc
                 | _ => acc
                 end) = Some (Scalar f)).
      { destruct (Dict.get (front_loc (mapped_loc k)) acc) as [[f'|f' r']|];
          try exact G.
        rewrite get_set, E. exact G. }
      destruct (IH _ G') as [S | (k' & r' & I & R' & F' & S)].
      * left. destruct (Dict.get (front_loc (mapped_loc k)) acc) as [[f0|f0 r0]|];
          exact S.
      * right. exists k', r'.
        split; [right; exact I|]. split; [exact R'|]. split; [exact F'|].
        destruct (Dict.get (front_loc (mapped_loc k)) acc) as [[f0|f0 r0]|];
          exact S.
  - destruct (IH _ G) as [S | (k' & r' & I & R' & F' & S)]; [left; exact S|].
    right. exists k', r'.
    split; [right; exact I|]. split; [exact R'|]. split; [exact F'|]. exact S.
Qed.

(** C2.  The armor allocation of a raw map, in its three cases.
    (1) A front entry (the last one mapped to its location) with no rear
    entry for that location gives the scalar under the mapped name.
    (2) With a rear entry for the location (the first such entry), the
    mapped name holds the composite of the two integers, front and rear.
    (3) A rear entry whose front location no front entry maps to gives no
    output: neither its front location nor its own name is a key, and
    every key of the allocation is the mapped name of a front entry. *)
Theorem armor_allocation_cases (raw : Dict.t ustr Z) :
  (forall l1 k v l2,
      raw = l1 ++ (k, v) :: l2 ->
      is_rear (mapped_loc k) = false ->
      (forall k' v', In (k', v') l2 -> is_rear (mapped_loc k') = false ->
                     mapped_loc k' <> mapped_loc k) ->
      (forall k' r, In (k', r) raw -> is_rear (mapped_loc k') = true ->
                    front_loc (mapped_loc k') <> mapped_loc k) ->
      Dict.get (mapped_loc k) (_build_armor_allocation raw) = Some (Scalar v))
  /\ (forall l1 k v l2 m1 k' r m2,
      raw = l1 ++ (k, v) :: l2 ->
      is_rear (mapped_loc k) = false ->
      (forall k0 v0, In (k0, v0) l2 -> is_rear (mapped_loc k0) = false ->
                     mapped_loc k0 <> mapped_loc k) ->
      raw = m1 ++ (k', r) :: m2 ->
      is_rear (mapped_loc k') = true ->
      front_loc (mapped_loc k') = mapped_loc k ->
      (forall k0 r0, In (k0, r0) m1 -> is_rear (mapped_loc k0) = true ->
                     front_loc (mapped_loc k0) <> mapped_loc k) ->
      Dict.get (mapped_loc k) (_build_armor_allocation raw)
      = Some (FrontRear v r))
  /\ (forall k' r,
      In (k', r) raw ->
      is_rear (mapped_loc k') = true ->
      (forall k v, In (k, v) raw -> is_rear (mapped_loc k) = false ->
                   mapped_loc k <> front_loc (mapped_loc k')) ->
      Dict.get (front_loc (mapped_loc k')) (_build_armor_allocation raw) = None
      /\ Dict.get (mapped_loc k') (_build_armor_allocation raw) = None)
  /\ (forall loc a,
      Dict.get loc (_build_armor_allocation raw) = Some a ->
      is_rear loc = false
      /\ exists k f, In (k, f) raw /\ is_rear (mapped_loc k) = false
                     /\ mapped_loc k = loc
                     /\ (a = Scalar f
                         \/ exists k' r, In (k', r) raw
                              /\ is_rear (mapped_loc k') = true
                              /\ front_loc (mapped_loc k') = loc
                              /\ a = FrontRear f r)).
Proof.
  unfold _build_armor_allocation.
  assert (FRONT : forall l1 k v l2,
      raw = l1 ++ (k, v) :: l2 ->
      is_rear (mapped_loc k) = false ->
      (forall k' v', In (k', v') l2 -> is_rear (mapped_loc k') = false ->
                     mapped_loc k' <> mapped_loc k) ->
      Dict.get (mapped_loc k) (collect_front raw Dict.empty) = Some (Scalar v)).
  { intros l1 k v l2 -> R L. unfold collect_front.
    rewrite fold_left_cons_app. cbn. rewrite R. cbn.
    change (Dict.get (mapped_loc k)
              (collect_front l2
                 (Dict.set (mapped_loc k) (Scalar v)
                    (collect_front l1 Dict.empty))) = Some (Scalar v)).
    rewrite collect_front_untouched by exact L. apply get_set_same. }
  assert (ABSENT : forall loc,
      (forall k v, In (k, v) raw -> is_rear (mapped_loc k) = false ->
                   mapped_loc k <> loc) ->
      Dict.get loc (merge_rear raw (collect_front raw Dict.empty)) = None).
  { intros loc N. apply merge_rear_absent.
    rewrite collect_front_untouched by exact N. reflexivity. }
  split; [|split; [|split]].
  - intros l1 k v l2 E R L N.
    rewrite merge_rear_untouched by exact N. eapply FRONT; eauto.
  - intros l1 k v l2 m1 k' r m2 E R L E' R' F N.
    pose proof (FRONT _ _ _ _ E R L) as G.
    rewrite E' at 1. unfold merge_rear. rewrite fold_left_cons_app.
    change (Dict.get (mapped_loc k)
              (merge_rear m2
                 (merge_rear_entry
                    (merge_rear m1 (collect_front raw Dict.empty)) (k', r)))
            = Some (FrontRear v r)).
    apply merge_rear_composite.
    assert (G1 : Dict.get (mapped_loc k)
                   (merge_rear m1 (collect_front raw Dict.empty))
                 = Some (Scalar v)).
    { rewrite merge_rear_untouched by exact N. exact G. }
    unfold merge_rear_entry. rewrite R', F, G1. apply get_set_same.
  - intros k' r I R N. split.
    + apply ABSENT. exact N.
    + apply ABSENT. intros k v I' R' E. rewrite E in R'. congruence.
  - intros loc a G.
    destruct (Dict.get loc (collect_front raw Dict.empty)) as [a0|] eqn:C.
    + destruct (collect_front_keys _ _ _ C) as [C' | (k & f & I & R & M & ->)];
        [discriminate|].
      split; [subst loc; exact R|].
      exists k, f. repeat split; auto.
      destruct (merge_rear_scalar raw _ _ C) as [S | (k' & r & I' & R' & F' & S)].
      * left. congruence.
      * right. exists k', r. repeat split; auto. congruence.
    + rewrite (merge_rear_absent raw _ _ C) in G. discriminate.
Qed.

(** A centre torso with 30 points in front and 10 behind, and a rear
    entry for the left torso that has no front entry. *)
Lemma armor_allocation_cases_witness :
  let raw := [(ulit "CT", 30%Z); (ulit "RTC", 10%Z); (ulit "RTL", 7%Z);
              (ulit "HD", 9%Z)] in
  Dict.get (ulit "HEAD") (_build_armor_allocation raw) = Some (Scalar 9)
  /\ Dict.get (ulit "CENTER_TORSO") (_build_armor_allocation raw)
     = Some (FrontRear 30 10)
  /\ Dict.get (ulit "LEFT_TORSO") (_build_armor_allocation raw) = None
  /\ Dict.get (ulit "LEFT_TORSO_REAR") (_build_armor_allocation raw) = None.
Proof.
  intros raw.
  pose proof (armor_allocation_cases raw) as (P1 & P2 & P3 & _).
  assert (NOT_IN : forall (P : Prop) (x : ustr * Z), In x [] -> P)
    by (intros P x []).
  split; [|split].
  - apply (P1 [(ulit "CT", 30%Z); (ulit "RTC", 10%Z); (ulit "RTL", 7%Z)]
              (ulit "HD") 9%Z []); [reflexivity | reflexivity | |].
    + intros k' v' [].
    + intros k' r [E|[E|[E|[E|[]]]]] R; inversion E; subst;
        vm_compute in R; try discriminate; vm_compute; discriminate.
  - apply (P2 [] (ulit "CT") 30%Z
              [(ulit "RTC", 10%Z); (ulit "RTL", 7%Z); (ulit "HD", 9%Z)]
              [(ulit "CT", 30%Z)] (ulit "RTC") 10%Z
              [(ulit "RTL", 7%Z); (ulit "HD", 9%Z)]);
      try reflexivity.
    + intros k0 v0 [E|[E|[E|[]]]] R; inversion E; subst;
        vm_compute in R; try discriminate; vm_compute; discriminate.
    + intros k0 r0 [E|[]] R; inversion E; subst; vm_compute in R; discriminate.
  - apply (P3 (ulit "RTL") 7%Z); [right; right; left; reflexivity | reflexivity |].
    intros k v [E|[E|[E|[E|[]]]]] R; inversion E; subst;
      vm_compute in R; try discriminate; vm_compute; discriminate.
Defined.

(** ** The assembler: chassis and fluff *)

Section AssemblerFacts.

Context `{EnumMappings}.

(** What [_build_unit] returns when the chassis is not the default. *)
Lemma build_unit_some (d : RawRecord) (u : SerializedUnit) :
  _build_unit d = Some u ->
  eqb (Dict.get_default (lit "chassis") (lit "Unknown") (strs d)) (lit "Unknown")
  = false
  /\ chassis u = Dict.get_default (lit "chassis") (lit "Unknown") (strs d)
  /\ unit_fluff u = fluff_of d
  /\ criticalSlots u = _build_critical_slots (criticals d)
  /\ equipment u = _build_equipment_list (weapons d).
Proof.
  unfold _build_unit.
  destruct (eqb _ (lit "Unknown")) eqn:E; [discriminate|].
  intros [= <-]. cbn. auto.
Qed.

(** C3.  A record without a chassis field is rejected: [_build_unit]
    returns [None].  Put the other way round, a unit is only ever built
    from a record that holds a chassis, and the unit carries it. *)
Theorem missing_chassis_gives_none (d : RawRecord) :
  Dict.get (lit "chassis") (strs d) = None ->
  _build_unit d = None
  /\ forall u, _build_unit d <> Some u.
Proof.
  intros G.
  assert (N : _build_unit d = None).
  { unfold _build_unit, Dict.get_default. rewrite G. reflexivity. }
  split; [exact N|]. intros u. rewrite N. discriminate.
Qed.

(** C8.  A record whose chassis field is the text "Unknown" is rejected
    like a record without one: the default and the explicit value are the
    same string when [_build_unit] tests it. *)
Theorem unknown_chassis_gives_none (d : RawRecord) :
  Dict.get (lit "chassis") (strs d) = Some (lit "Unknown") ->
  _build_unit d = None
  /\ Dict.get_default (lit "chassis") (lit "Unknown") (strs d)
     = Dict.get_default (lit "chassis") (lit "Unknown") (strs empty_record).
Proof.
  intros G. unfold _build_unit, Dict.get_default. rewrite G. split; reflexivity.
Qed.

(** C7, as the code has it.  A unit carries a fluff block exactly when
    the record's fluff dictionary is not empty, that is when a narrative
    field was captured.  The block then copies the manufacturer, the
    primary factory and the system manufacturers of the record (the last
    only when there are some); these alone never make a block. *)
Theorem fluff_block_iff_narrative (d : RawRecord) (u : SerializedUnit) :
  _build_unit d = Some u ->
  (unit_fluff u = None <-> fluff d = [])
  /\ forall fl, unit_fluff u = Some fl ->
       manufacturer fl = Dict.get (lit "manufacturer") (strs d)
       /\ primaryFactory fl = Dict.get (lit "primary_factory") (strs d)
       /\ systemManufacturer fl
          = (if Dict.truthy (system_manufacturers d)
             then Some (system_manufacturers d) else None).
Proof.
  intros B. apply build_unit_some in B. destruct B as (_ & _ & F & _).
  rewrite F. unfold fluff_of. destruct (fluff d) as [|e rest]; cbn.
  - split; [tauto|]. discriminate.
  - split; [split; discriminate|]. intros fl [= <-]. cbn. auto.
Qed.

(** The fluff block of a unit never holds the variants or the
    notable-units text, whatever the record holds: its narrative fields
    are the overview, capabilities, history and deployment entries of the
    record's fluff dictionary. *)
Lemma fluff_block_fields (d : RawRecord) (u : SerializedUnit)
    (fl : SerializedFluff) :
  _build_unit d = Some u ->
  unit_fluff u = Some fl ->
  variants fl = None /\ notableUnits fl = None
  /\ overview fl = Dict.get (lit "overview") (fluff d)
  /\ capabilities fl = Dict.get (lit "capabilities") (fluff d)
  /\ history fl = Dict.get (lit "history") (fluff d)
  /\ deployment fl = Dict.get (lit "deployment") (fluff d).
Proof.
  intros B. apply build_unit_some in B. destruct B as (_ & _ & F & _).
  rewrite F. unfold fluff_of. destruct (Dict.truthy (fluff d)); [|discriminate].
  intros [= <-]. cbn. repeat split.
Qed.

End AssemblerFacts.

Lemma missing_chassis_gives_none_witness :
  let d := set_str "model" (lit "AS7-D") empty_record in
  _build_unit d = None.
Proof.
  intros d. exact (proj1 (missing_chassis_gives_none d eq_refl)).
Defined.

Lemma unknown_chassis_gives_none_witness :
  let d := set_str "chassis" (lit "Unknown") empty_record in
  _build_unit d = None.
Proof.
  intros d. exact (proj1 (unknown_chassis_gives_none d eq_refl)).
Defined.

(** ** The line scanner *)

(** Case analysis on the branch a line takes in [process_line]. *)
Ltac scan_cases H :=
  unfold process_line in H; cbv zeta in H;
  repeat match type of H with
         | context [match fluff_header ?x with _ => _ end] =>
             destruct (fluff_header x) eqn:?
         | context [if ?c then _ else _] => destruct c eqn:?
         | context [let (_, _) := split1 ?a ?b in _] =>
             destruct (split1 a b) eqn:?
         | context [bind ?m _] => destruct m eqn:?; cbn [bind] in H
         | context [match current_section ?s with _ => _ end] =>
             destruct (current_section s) eqn:?
         end;
  try discriminate H; try (injection H as H; subst).

Section ScannerFacts.

Variable int_of_float : str -> conversion.

(** The field interpreter does not touch the critical-slot lines. *)
Lemma parse_key_value_criticals (key value : str) (d d' : RawRecord) :
  _parse_key_value int_of_float key value d = Returned d' ->
  criticals d' = criticals d.
Proof.
  unfold _parse_key_value.
  repeat match goal with
         | |- (if ?c then _ else _) = _ -> _ => destruct c
         | |- match py_int ?v with _ => _ end = _ -> _ => destruct (py_int v)
         | |- match int_of_float ?v with _ => _ end = _ -> _ =>
             destruct (int_of_float v)
         | |- (let (_, _) := ?p in _) = _ -> _ => destruct p
         end;
    try discriminate; intros [= <-]; reflexivity.
Qed.

Lemma save_fluff_criticals (st : state) :
  criticals (save_fluff st) = criticals (data st).
Proof.
  unfold save_fluff.
  destruct (in_fluff st && nonempty (fluff_buffer st)); [|reflexivity].
  destruct (current_fluff_field st); reflexivity.
Qed.

Lemma save_section_mem (st : state) (loc : str) :
  Dict.mem loc (criticals (save_section st)) = true ->
  Dict.mem loc (criticals (data st)) = true \/ pending loc st.
Proof.
  unfold save_section, section_pending, pending.
  destruct (current_section st) as [sec|]; [|auto].
  destruct (section_open st && nonempty (current_section_items st)) eqn:P; [|auto].
  cbn. rewrite mem_set. intros M. apply orb_true_iff in M.
  destruct M as [E | M]; [|auto].
  apply eqb_eq in E. subst sec. right. split; [reflexivity|].
  apply andb_true_iff in P. destruct P as [_ P].
  destruct (current_section_items st); [discriminate|discriminate].
Qed.

(** One line adds a location to the critical-slot lines only by saving a
    pending section or by appending a content line to it. *)
Lemma process_line_mem (st st' : state) (line loc : str) :
  process_line int_of_float st line = Returned st' ->
  Dict.mem loc (criticals (data st')) = true ->
  Dict.mem loc (criticals (data st)) = true \/ pending loc st
  \/ appends_to int_of_float st line loc.
Proof.
  intros P M. pose proof P as P0. scan_cases P; cbn in M;
    try rewrite save_fluff_criticals in M;
    try (apply save_section_mem in M; tauto);
    try (left; exact M).
  - erewrite parse_key_value_criticals in M by eassumption. left; exact M.
  - rewrite mem_set in M. apply orb_true_iff in M. destruct M as [E | M]; [|auto].
    apply eqb_eq in E. subst loc. right. right. split; [assumption|].
    eexists. split; [exact P0|]. reflexivity.
Qed.

(** One line makes a section pending only if it was, or by appending. *)
Lemma process_line_pending (st st' : state) (line loc : str) :
  process_line int_of_float st line = Returned st' ->
  pending loc st' ->
  pending loc st \/ appends_to int_of_float st line loc.
Proof.
  intros P [S I]. pose proof P as P0. unfold pending.
  scan_cases P; cbn in S, I; try (left; split; [congruence | exact I]);
    try discriminate; try congruence; try (exfalso; apply I; reflexivity).
  all: right; split; [congruence|];
    eexists; split; [exact P0|]; reflexivity.
Qed.

(** A location among the critical-slot lines after the scan was there
    before, or was pending, or some line was appended to it. *)
Lemma scan_mem (lines : list str) (st st' : state) (loc : str) :
  scan int_of_float st lines = Returned st' ->
  Dict.mem loc (criticals (data st')) = true \/ pending loc st' ->
  Dict.mem loc (criticals (data st)) = true \/ pending loc st
  \/ exists l1 x l2 stm,
       lines = l1 ++ x :: l2
       /\ scan int_of_float st l1 = Returned stm
       /\ appends_to int_of_float stm x loc.
Proof.
  revert st. induction lines as [|line rest IH]; intros st S M; cbn in S.
  - injection S as <-. tauto.
  - destruct (process_line int_of_float st line) as [st1|] eqn:P;
      cbn in S; [|discriminate].
    destruct (IH _ S M) as [M1 | [P1 | (l1 & x & l2 & stm & E & S1 & A)]].
    + destruct (@process_line_mem _ _ _ _ P M1) as [M0 | [P0 | A]];
        [left; exact M0 | right; left; exact P0 |].
      right. right. exists [], line, rest, st.
      split; [reflexivity|]. split; [reflexivity | exact A].
    + destruct (@process_line_pending _ _ _ _ P P1) as [P0 | A];
        [right; left; exact P0 |].
      right. right. exists [], line, rest, st.
      split; [reflexivity|]. split; [reflexivity | exact A].
    + right. right. exists (line :: l1), x, l2, stm. subst rest.
      split; [reflexivity|]. split; [|exact A]. cbn. rewrite P. exact S1.
Qed.

Lemma finish_mem (st : state) (loc : str) :
  Dict.mem loc (criticals (finish st)) = true ->
  Dict.mem loc (criticals (data st)) = true \/ pending loc st.
Proof.
  unfold finish. rewrite save_fluff_criticals. cbn. apply save_section_mem.
Qed.

(** A raw location of the parsed record had a content line appended. *)
Lemma parse_record_mem (lines : list str) (d : RawRecord) (loc : str) :
  parse_record int_of_float lines = Returned d ->
  Dict.mem loc (criticals d) = true ->
  exists l1 x l2 stm,
    lines = l1 ++ x :: l2
    /\ scan int_of_float initial_state l1 = Returned stm
    /\ appends_to int_of_float stm x loc.
Proof.
  unfold parse_record. intros P M.
  destruct (scan int_of_float initial_state lines) as [st|] eqn:S;
    cbn in P; [|discriminate].
  injection P as <-. apply finish_mem in M.
  destruct (@scan_mem _ _ _ _ S M) as [M0 | [[P0 _] | R]]; [| |exact R].
  - cbn in M0. discriminate.
  - cbn in P0. discriminate.
Qed.

End ScannerFacts.

(** ** Section headers *)

Lemma save_section_only_criticals (st : state) :
  exists c, save_section st = with_criticals c (data st).
Proof.
  unfold save_section.
  assert (E : data st = with_criticals (criticals (data st)) (data st))
    by (destruct (data st); reflexivity).
  destruct (current_section st); [destruct (section_pending st)|];
    eauto.
Qed.




(** ** Empty sections *)

Section EmptySections.

Context `{EnumMappings}.

(** C9, as the code has it.  A location is in the critical-slot table of
    the unit only if a content line was appended to a section that maps to
    it: when no line of the input is appended to such a section, the
    location is absent.  A section saved with no content line does not
    exist: the location is not there as a sequence of [None] entries. *)
Theorem empty_sections_leave_no_slots (int_of_float : str -> conversion)
    (lines : list str) (u : SerializedUnit) (loc : str) :
  _parse_lines int_of_float lines = Returned (Some u) ->
  (forall l1 x l2 stm raw,
      lines = l1 ++ x :: l2 ->
      scan int_of_float initial_state l1 = Returned stm ->
      map_mech_location raw = loc ->
      ~ appends_to int_of_float stm x raw) ->
  Dict.get loc (criticalSlots u) = None.
Proof.
  unfold _parse_lines. intros P N.
  destruct (parse_record int_of_float lines) as [d|] eqn:R; cbn in P;
    [|discriminate].
  injection P as B. apply build_unit_some in B.
  destruct B as (_ & _ & _ & S & _). rewrite S.
  destruct (Dict.get loc (_build_critical_slots (criticals d))) as [sl|] eqn:G;
    [|reflexivity].
  exfalso. unfold _build_critical_slots in G.
  apply build_critical_slots_origin in G.
  destruct G as [G | (raw & items & I & M & _)]; [discriminate|].
  apply In_mem in I.
  destruct (@parse_record_mem _ _ _ _ R I) as (l1 & x & l2 & stm & E & SC & A).
  exact (N l1 x l2 stm raw E SC M A).
Qed.

End EmptySections.

(** A head header at the end of the input: the table has no head. *)
Lemma empty_sections_leave_no_slots_witness :
  let lines := [lit "chassis:Atlas"; lit "Head:"] in
  exists u, _parse_lines sample_int_of_float lines = Returned (Some u)
            /\ Dict.get (lit "HEAD") (criticalSlots u) = None.
Proof.
  intros lines.
  destruct (_parse_lines sample_int_of_float lines) as [[u|]|] eqn:P;
    try (vm_compute in P; discriminate).
  exists u. split; [reflexivity|].
  apply (@empty_sections_leave_no_slots _ sample_int_of_float lines u (lit "HEAD") P).
  intros l1 x l2 stm raw E S _ [C _].
  destruct l1 as [|a [|b [|c l1]]]; cbn in E.
  - cbn in S. injection S as <-. discriminate C.
  - injection E as <- _ _. vm_compute in S. injection S as <-. discriminate C.
  - injection E as _ _ E. discriminate E.
  - injection E as _ _ E. discriminate E.
Defined.

(** C9 as the specification words it fails when a location has two
    sections: the second head header below is followed by no content line,
    and the head is in the table with the line of the first section. *)
Lemma repeated_header_keeps_location :
  let lines := [lit "chassis:Atlas"; lit "Head:"; lit "Cockpit"; lit "Head:"] in
  exists stm st' u,
    scan sample_int_of_float initial_state
         [lit "chassis:Atlas"; lit "Head:"; lit "Cockpit"] = Returned stm
    /\ process_line sample_int_of_float stm (lit "Head:") = Returned st'
    /\ current_section st' = Some (lit "Head")
    /\ current_section_items st' = []
    /\ _parse_lines sample_int_of_float lines = Returned (Some u)
    /\ Dict.get (lit "HEAD") (criticalSlots u)
       = Some [Some (lit "Cockpit"); None; None; None; None; None].
Proof.
  intros lines. eexists _, _, _.
  split; [lazy; reflexivity|].
  split; [lazy; reflexivity|].
  split; [reflexivity|]. split; [reflexivity|].
  split; [lazy; reflexivity|].
  vm_compute. reflexivity.
Qed.

(** C7 as the specification words it fails on a record that holds
    manufacturer data and no narrative field: the unit has no fluff
    block. *)
Lemma manufacturer_alone_gives_no_fluff :
  let lines := [lit "chassis:Atlas"; lit "manufacturer:Defiance Industries";
                lit "primaryfactory:Hesperus II";
                lit "systemmanufacturer:CHASSIS:Foundation Type 10X"] in
  exists d u,
    parse_record sample_int_of_float lines = Returned d
    /\ Dict.get (lit "manufacturer") (strs d) = Some (lit "Defiance Industries")
    /\ Dict.get (lit "primary_factory") (strs d) = Some (lit "Hesperus II")
    /\ system_manufacturers d = [(lit "CHASSIS", lit "Foundation Type 10X")]
    /\ _build_unit d = Some u
    /\ unit_fluff u = None.
Proof.
  intros lines. eexists _, _.
  split; [lazy; reflexivity|].
  repeat split; vm_compute; reflexivity.
Qed.

(** An overview and a manufacturer: the block holds both. *)
Lemma fluff_block_iff_narrative_witness :
  let d := with_fluff [(lit "overview", lit "A big one.")]
             (set_str "manufacturer" (lit "Defiance")
                (set_str "chassis" (lit "Atlas") empty_record)) in
  exists u fl, _build_unit d = Some u /\ unit_fluff u = Some fl
               /\ manufacturer fl = Some (lit "Defiance").
Proof.
  intros d.
  destruct (_build_unit d) as [u|] eqn:B; [|vm_compute in B; discriminate].
  destruct (unit_fluff u) as [fl|] eqn:F.
  - exists u, fl. split; [reflexivity|]. split; [exact F|].
    exact (proj1 (proj2 (fluff_block_iff_narrative d B) fl F)).
  - apply (proj1 (fluff_block_iff_narrative d B)) in F. discriminate F.
Defined.

(** ** Rear-mounted weapons *)

Lemma startswith_app {A} `{EqbOk A} (p s : list A) :
  startswith p s = true -> exists r, s = p ++ r.
Proof.
  revert s. induction p as [|a p IH]; intros s S; cbn in S.
  - exists s. reflexivity.
  - destruct s as [|b s]; [discriminate|].
    apply andb_true_iff in S. destruct S as [E S].
    apply eqb_eq in E. subst b.
    destruct (IH _ S) as [r ->]. exists r. reflexivity.
Qed.

Lemma contains_In {A} `{EqbOk A} (p s : list A) (c : A) :
  contains p s = true -> In c p -> In c s.
Proof.
  induction s as [|b s IH]; cbn; intros C I.
  - rewrite orb_false_r in C. apply startswith_app in C.
    destruct C as [r E]. destruct p; [destruct I | discriminate E].
  - apply orb_true_iff in C. destruct C as [C | C].
    + apply startswith_app in C. destruct C as [r E].
      change (In c (b :: s)). rewrite E. apply in_or_app. left; exact I.
    + right. apply IH; assumption.
Qed.

(** No character is lowered to a capital R. *)
Lemma lower_char_not_R (c : ascii) : lower_char c <> "R"%char.
Proof.
  destruct c as [[] [] [] [] [] [] [] []]; vm_compute; discriminate.
Qed.

Lemma lowered_has_no_rear_word (name : str) :
  contains (lit "(Rear)") (lower name) = false.
Proof.
  destruct (contains (lit "(Rear)") (lower name)) eqn:C; [|reflexivity].
  exfalso.
  assert (I : In "R"%char (lower name)).
  { apply (contains_In _ _ _ C). cbn. auto. }
  unfold lower in I. apply in_map_iff in I. destruct I as (c & E & _).
  exact (@lower_char_not_R c E).
Qed.

Section RearMounted.

Context `{EnumMappings}.

(** C4, on the code.  The test for the word marker looks for "(Rear)",
    with its capital, in the lower-cased name, and never finds it: an
    entry is flagged exactly when its name holds "(R)".  So the weapon
    "Medium Laser (Rear)" is not flagged and keeps the marker in the name
    its identifier is derived from, while "Medium Laser(R)" is flagged and
    its identifier is derived from "Medium Laser". *)
Theorem rear_word_marker_is_missed :
  (forall name, is_rear_mounted name = contains (lit "(R)") name)
  /\ _build_equipment_list
       [mkWeapon (lit "Medium Laser (Rear)") (lit "Left Arm")]
     = [mkSerializedEquipment
          (normalize_equipment_id (lit "Medium Laser (Rear)"))
          (map_mech_location (lit "Left Arm")) None None None]
  /\ _build_equipment_list
       [mkWeapon (lit "Medium Laser(R)") (lit "Left Arm")]
     = [mkSerializedEquipment
          (normalize_equipment_id (lit "Medium Laser"))
          (map_mech_location (lit "Left Arm")) None (Some true) None].
Proof.
  split; [|split].
  - intros name. unfold is_rear_mounted.
    rewrite lowered_has_no_rear_word. apply orb_false_r.
  - reflexivity.
  - reflexivity.
Qed.

End RearMounted.

(** ** Narrative fields *)

(** A line whose lower-cased text starts with one of the last three
    fluff field names and a colon is a fluff header of that field, and is
    neither blank nor a comment. *)
Lemma late_fluff_header (lc field : str) :
  In field [lit "variants"; lit "notable_pilots"; lit "notes"] ->
  startswith (field ++ lit ":") (lower lc) = true ->
  fluff_header lc = Some field
  /\ nonempty lc = true
  /\ startswith (lit "#") lc = false.
Proof.
  intros I S. pose proof (startswith_app _ _ S) as [r E].
  assert (NB : nonempty lc = true /\ startswith (lit "#") lc = false).
  { destruct lc as [|c rest].
    - destruct I as [<-|[<-|[<-|[]]]]; discriminate E.
    - split; [reflexivity|].
      change (startswith (lit "#") (c :: rest)) with (eqb "#"%char c && true).
      rewrite andb_true_r.
      destruct (eqb "#"%char c) eqn:Q; [|reflexivity].
      apply eqb_eq in Q. subst c.
      destruct I as [<-|[<-|[<-|[]]]]; discriminate E. }
  split; [|exact NB].
  unfold fluff_header, fluff_fields.
  destruct I as [<-|[<-|[<-|[]]]]; cbn [find]; rewrite E; cbn; reflexivity.
Qed.

Section NarrativeFields.

Context `{EnumMappings}.


End NarrativeFields.


(** ** The engine pattern *)

Section WhileFacts.

Context {A : Type} (f : A -> bool).

Lemma takewhile_dropwhile (s : list A) : takewhile f s ++ dropwhile f s = s.
Proof.
  induction s as [|c s IH]; cbn; [reflexivity|].
  destruct (f c); cbn; [rewrite IH|]; reflexivity.
Qed.

Lemma takewhile_all (s : list A) : forallb f (takewhile f s) = true.
Proof.
  induction s as [|c s IH]; cbn; [reflexivity|].
  destruct (f c) eqn:E; cbn; [rewrite E; exact IH | reflexivity].
Qed.

Lemma takewhile_firstn (k : nat) (s : list A) :
  k <= length (takewhile f s) ->
  forallb f (firstn k s) = true /\ length (firstn k s) = k.
Proof.
  revert s. induction k as [|k IH]; intros s L; cbn; [auto|].
  destruct s as [|c s]; cbn in L; [lia|].
  destruct (f c) eqn:E; cbn in L; [|lia].
  cbn. rewrite E. destruct (IH s) as [F N]; [lia|]. rewrite F, N. auto.
Qed.

Lemma takewhile_prefix (p r : list A) :
  forallb f p = true -> length p <= length (takewhile f (p ++ r)).
Proof.
  induction p as [|c p IH]; cbn; intros F; [lia|].
  apply andb_true_iff in F. destruct F as [E F]. rewrite E. cbn.
  apply IH in F. lia.
Qed.

Lemma takewhile_stop (q : list A) (x : A) (t : list A) :
  forallb f q = true -> f x = false ->
  takewhile f (q ++ x :: t) = q /\ dropwhile f (q ++ x :: t) = x :: t.
Proof.
  intros F X. induction q as [|c q IH]; cbn.
  - rewrite X. auto.
  - cbn in F. apply andb_true_iff in F. destruct F as [E F]. rewrite E.
    destruct (IH F) as [T D]. rewrite T, D. auto.
Qed.

End WhileFacts.

Lemma no_char_forallb (x : ascii) (q : str) :
  has_char x q = false <-> forallb (fun c => negb (eqb c x)) q = true.
Proof.
  unfold has_char. induction q as [|c q IH]; cbn; [tauto|].
  assert (S : eqb c x = eqb x c).
  { destruct (eqb x c) eqn:E.
    - apply eqb_eq in E. subst. apply eqb_refl.
    - apply eqb_neq. apply eqb_neq in E. congruence. }
  rewrite S. destruct (eqb x c); cbn; [split; discriminate | exact IH].
Qed.

Lemma skipn_app_length {A} (p r : list A) : skipn (length p) (p ++ r) = r.
Proof. induction p; cbn; auto. Qed.

Lemma firstn_app_length {A} (p r : list A) : firstn (length p) (p ++ r) = p.
Proof. induction p; cbn; [reflexivity | f_equal; assumption]. Qed.

Lemma longest_first_sound {A} (f : nat -> option A) (lo n : nat) (a : A) :
  longest_first f lo n = Some a ->
  exists k, k <= n /\ (lo <= n -> lo <= k) /\ f k = Some a.
Proof.
  induction n as [|n IH]; cbn.
  - destruct (f 0) eqn:E; [|discriminate].
    intros [= ->]. exists 0. auto.
  - destruct (f (S n)) eqn:E.
    + intros [= ->]. exists (S n). auto.
    + destruct lo as [|lo]; [cbn|].
      * intros L. destruct (IH L) as (k & K & _ & F). exists k.
        repeat split; auto; lia.
      * destruct (n <=? lo) eqn:C; [discriminate|].
        apply Nat.leb_gt in C.
        intros L. destruct (IH L) as (k & K & B & F). exists k.
        repeat split; auto; lia.
Qed.

Lemma longest_first_complete {A} (f : nat -> option A) (lo n k : nat) :
  lo <= k -> k <= n -> f k <> None -> longest_first f lo n <> None.
Proof.
  intros L. induction n as [|n IH]; intros K F; cbn.
  - assert (k = 0) by lia. subst k. destruct (f 0); [discriminate | exact F].
  - destruct (f (S n)) eqn:E; [discriminate|].
    assert (K' : k <= n).
    { destruct (Nat.eq_dec k (S n)) as [->|]; [congruence | lia]. }
    destruct lo as [|lo]; [cbn; auto|].
    destruct (n <=? lo) eqn:C; [apply Nat.leb_le in C; lia | auto].
Qed.

Lemma match_qualifier_sound (r : str) (g3 : option str) :
  match_qualifier r = Some g3 ->
  exists tail,
    r = qualifier_text g3 ++ tail /\ at_end tail = true
    /\ forall q, g3 = Some q -> q <> [] /\ has_char ")"%char q = false.
Proof.
  assert (W : (if at_end r then Some None else None) = Some g3 ->
              exists tail,
                r = qualifier_text g3 ++ tail /\ at_end tail = true
                /\ forall q, g3 = Some q ->
                             q <> [] /\ has_char ")"%char q = false).
  { destruct (at_end r) eqn:E; [|discriminate].
    intros [= <-]. exists r. repeat split; auto; discriminate. }
  unfold match_qualifier. destruct r as [|c r']; [exact W|].
  destruct (eqb c "("%char) eqn:P; [|exact W].
  pose proof (takewhile_dropwhile (fun c => negb (eqb c ")"%char)) r') as TD.
  pose proof (takewhile_all (fun c => negb (eqb c ")"%char)) r') as TA.
  destruct (takewhile (fun c => negb (eqb c ")"%char)) r') as [|q0 q] eqn:T;
    [exact W|].
  destruct (dropwhile (fun c => negb (eqb c ")"%char)) r') as [|x rest] eqn:D;
    [exact W|].
  destruct (at_end rest) eqn:E; [|exact W].
  intros [= <-]. exists rest.
  assert (X : x = ")"%char).
  { destruct r' as [|c0 r0]; [discriminate D|].
    clear - D. revert D. generalize (c0 :: r0). intros l.
    induction l as [|a l IH]; cbn; [discriminate|].
    destruct (eqb a ")"%char) eqn:Q; cbn.
    - intros [= -> _]. apply eqb_eq in Q. exact Q.
    - exact IH. }
  apply eqb_eq in P. subst c x. split; [|split; [exact E|]].
  - cbn. rewrite <- TD. rewrite <- app_assoc. reflexivity.
  - intros q' [= <-]. split; [discriminate|].
    apply no_char_forallb. exact TA.
Qed.

Lemma match_qualifier_complete (g3 : option str) (tail : str) :
  at_end tail = true ->
  (forall q, g3 = Some q -> q <> [] /\ has_char ")"%char q = false) ->
  match_qualifier (qualifier_text g3 ++ tail) <> None.
Proof.
  intros E V. destruct g3 as [q|]; cbn.
  - destruct (V q eq_refl) as [N C]. apply no_char_forallb in C.
    unfold match_qualifier.
    change (lit "(" ++ q ++ lit ")") with ("("%char :: q ++ [")"%char]).
    cbn [app]. rewrite <- app_assoc. cbn [app].
    destruct (@takewhile_stop _ (fun c => negb (eqb c ")"%char)) q
                ")"%char tail C) as [T D];
      [rewrite eqb_refl; reflexivity|].
    rewrite T, D. destruct q as [|q0 q]; [contradiction|].
    rewrite E. discriminate.
  - unfold match_qualifier. rewrite E.
    destruct tail as [|c r']; [discriminate|].
    destruct (eqb c "("%char); [|discriminate].
    destruct (takewhile _ r'); [discriminate|].
    destruct (dropwhile _ r'); [discriminate|].
    match goal with
    | |- context [at_end ?x] => destruct (at_end x); discriminate
    end.
Qed.

Lemma match_type_sound (r seen g2 : str) (g3 : option str) :
  match_type seen r = Some (g2, g3) ->
  exists body tail,
    g2 = rev seen ++ body /\ r = body ++ qualifier_text g3 ++ tail
    /\ has_char newline body = false /\ at_end tail = true
    /\ forall q, g3 = Some q -> q <> [] /\ has_char ")"%char q = false.
Proof.
  revert seen. induction r as [|c r IH]; intros seen; cbn [match_type].
  - destruct (match_qualifier []) as [g|] eqn:Q; [|discriminate].
    intros [= <- <-]. apply match_qualifier_sound in Q.
    destruct Q as (tail & E & T & V). exists [], tail.
    rewrite app_nil_r. auto.
  - destruct (match_qualifier (c :: r)) as [g|] eqn:Q.
    + intros [= <- <-]. apply match_qualifier_sound in Q.
      destruct Q as (tail & E & T & V). exists [], tail.
      rewrite app_nil_r. auto.
    + destruct (eqb c newline) eqn:N; [discriminate|].
      intros M. apply IH in M.
      destruct M as (body & tail & E1 & E2 & B & T & V).
      exists (c :: body), tail. cbn in E1. rewrite <- app_assoc in E1.
      repeat split; auto.
      * subst r. reflexivity.
      * unfold has_char. cbn [existsb].
        assert (S : eqb newline c = false).
        { apply eqb_neq. apply eqb_neq in N. congruence. }
        rewrite S. exact B.
      * apply (V q). assumption.
      * apply (V q). assumption.
Qed.

Lemma match_type_complete (body r seen : str) :
  has_char newline body = false ->
  match_qualifier r <> None ->
  match_type seen (body ++ r) <> None.
Proof.
  revert seen. induction body as [|c body IH]; intros seen B Q.
  - cbn [app]. destruct r as [|c r]; cbn [match_type];
      destruct (match_qualifier _); [discriminate | contradiction
                                    | discriminate | contradiction].
  - cbn [app match_type].
    destruct (match_qualifier (c :: body ++ r)); [discriminate|].
    unfold has_char in B. cbn [existsb] in B. apply orb_false_iff in B.
    destruct B as [N B].
    assert (S : eqb c newline = false).
    { apply eqb_neq. apply eqb_neq in N. congruence. }
    rewrite S. apply IH; assumption.
Qed.

(** The engine matcher finds only texts of the pattern, with the groups
    it returns. *)
Lemma engine_match_sound (value g1 g2 : str) (g3 : option str) :
  engine_match value = Some (g1, g2, g3) -> engine_pattern value g1 g2 g3.
Proof.
  unfold engine_match.
  destruct (length (takewhile isdigit value) =? 0) eqn:Z; [discriminate|].
  apply Nat.eqb_neq in Z. intros M.
  apply longest_first_sound in M. destruct M as (k & K & K1 & M).
  apply longest_first_sound in M. destruct M as (j & J & _ & M).
  destruct (match_type [] (skipn j (skipn k value))) as [[b g]|] eqn:T;
    [|discriminate].
  injection M as <- <- <-.
  apply match_type_sound in T.
  destruct T as (body & tail & E1 & E2 & B & TE & V).
  cbn in E1. subst b.
  destruct (@takewhile_firstn _ isdigit k value K) as [D DL].
  destruct (@takewhile_firstn _ isspace j (skipn k value) J) as [W _].
  exists (firstn j (skipn k value)), tail.
  split; [|split; [|split; [exact D|split; [exact W|auto]]]].
  - rewrite <- E2. rewrite (firstn_skipn j (skipn k value)).
    rewrite (firstn_skipn k value). reflexivity.
  - intros E. rewrite E in DL. cbn in DL. lia.
Qed.

(** The engine matcher finds every text of the pattern. *)
Lemma engine_match_complete (value g1 g2 : str) (g3 : option str) :
  engine_pattern value g1 g2 g3 -> engine_match value <> None.
Proof.
  intros (ws & tail & E & N & D & W & B & V & TE).
  unfold engine_match. subst value.
  pose proof (@takewhile_prefix _ isdigit g1
                (ws ++ g2 ++ qualifier_text g3 ++ tail) D) as L.
  assert (P : 1 <= length g1) by (destruct g1; [contradiction | cbn; lia]).
  destruct (length (takewhile isdigit (g1 ++ ws ++ g2 ++ qualifier_text g3 ++ tail))
            =? 0) eqn:Z; [apply Nat.eqb_eq in Z; lia|].
  apply (@longest_first_complete _ _ _ _ _ P L).
  rewrite skipn_app_length.
  pose proof (@takewhile_prefix _ isspace ws
                (g2 ++ qualifier_text g3 ++ tail) W) as LW.
  apply (@longest_first_complete _ _ _ _ _ (Nat.le_0_l _) LW).
  rewrite skipn_app_length.
  pose proof (@match_type_complete g2 (qualifier_text g3 ++ tail) [] B
                (@match_qualifier_complete g3 tail TE V)) as M.
  destruct (match_type [] (g2 ++ qualifier_text g3 ++ tail)) as [[b g]|];
    [discriminate | contradiction].
Qed.

(** Whether group 2 and the rest match does not depend on the characters
    already taken into group 2. *)
Lemma match_type_seen (r seen seen' : str) :
  match_type seen r <> None -> match_type seen' r <> None.
Proof.
  revert seen seen'. induction r as [|c r IH]; intros seen seen';
    cbn [match_type].
  - destruct (match_qualifier []); [discriminate | auto].
  - destruct (match_qualifier (c :: r)); [discriminate|].
    destruct (eqb c newline); [auto | apply IH].
Qed.

(** A digit or a blank before a text that matches can be given to the
    repetitions before group 2: the rest still matches. *)
Lemma match_type_skip (x r : str) :
  forallb (fun c => isdigit c || isspace c) x = true ->
  match_type [] (x ++ r) <> None -> match_type [] r <> None.
Proof.
  induction x as [|c x IH]; intros F M; [exact M|].
  cbn in F. apply andb_true_iff in F. destruct F as [C F].
  apply IH; [exact F|]. cbn [app match_type] in M.
  destruct (match_qualifier (c :: x ++ r)) as [g|] eqn:Q.
  - assert (E : at_end (c :: x ++ r) = true).
    { unfold match_qualifier in Q.
      destruct (eqb c "("%char) eqn:P.
      - apply eqb_eq in P. subst c. vm_compute in C. discriminate C.
      - destruct (at_end (c :: x ++ r)); [reflexivity | discriminate Q]. }
    destruct (x ++ r) as [|c' r']; [|discriminate E].
    cbn. discriminate.
  - destruct (eqb c newline); [contradiction|].
    exact (@match_type_seen _ _ [] M).
Qed.

Lemma longest_first_top {A} (f : nat -> option A) (lo n : nat) :
  f n <> None -> longest_first f lo n = f n.
Proof.
  intros F. destruct n; cbn; destruct (f _); congruence.
Qed.

Lemma skipn_all_app {A} (n : nat) (p r : list A) :
  n <= length p -> skipn n (p ++ r) = skipn n p ++ r.
Proof.
  revert p. induction n as [|n IH]; intros p L; [reflexivity|].
  destruct p as [|a p]; cbn in L; [lia|]. cbn. apply IH. lia.
Qed.

Lemma forallb_skipn {A} (f : A -> bool) (n : nat) (l : list A) :
  forallb f l = true -> forallb f (skipn n l) = true.
Proof.
  revert l. induction n as [|n IH]; intros l F; [exact F|].
  destruct l as [|a l]; [reflexivity|]. cbn in F.
  apply andb_true_iff in F. destruct F as [_ F]. cbn. apply IH. exact F.
Qed.

Lemma takewhile_after_digit (k : nat) (value : str) :
  k < length (takewhile isdigit value) ->
  takewhile isspace (skipn k value) = [].
Proof.
  revert value. induction k as [|k IH]; intros value L.
  - destruct value as [|c v]; [reflexivity|]. cbn in L |- *.
    destruct (isdigit c) eqn:D; [|cbn in L; lia].
    assert (S : isspace c = false).
    { destruct c as [[] [] [] [] [] [] [] []]; vm_compute in D |- *;
        congruence. }
    rewrite S. reflexivity.
  - destruct value as [|c v]; [cbn in L; lia|]. cbn in L.
    destruct (isdigit c); cbn in L; [|lia]. cbn. apply IH. lia.
Qed.

Lemma takewhile_firstn_eq {A} (f : A -> bool) (s : list A) :
  firstn (length (takewhile f s)) s = takewhile f s.
Proof.
  induction s as [|c s IH]; cbn; [reflexivity|].
  destruct (f c); cbn; [f_equal; exact IH | reflexivity].
Qed.

(** The greedy repetitions never have to give characters back: when the
    engine pattern matches, group 1 is the whole run of leading digits. *)
Lemma engine_match_greedy (value g1 g2 : str) (g3 : option str) :
  engine_match value = Some (g1, g2, g3) -> g1 = takewhile isdigit value.
Proof.
  intros M0. pose proof M0 as M. unfold engine_match in M.
  destruct (length (takewhile isdigit value) =? 0) eqn:Z; [discriminate|].
  set (nd := length (takewhile isdigit value)) in *.
  set (f := fun k : nat =>
              longest_first
                (fun j : nat =>
                   match match_type [] (skipn j (skipn k value)) with
                   | Some (g2, g3) => Some (firstn k value, g2, g3)
                   | None => None
                   end) 0 (length (takewhile isspace (skipn k value)))) in *.
  assert (TOP : f nd <> None).
  { pose proof M as M1.
    apply longest_first_sound in M1. destruct M1 as (k & K & _ & M1).
    unfold f in M1.
    apply longest_first_sound in M1. destruct M1 as (j & J & _ & M1).
    assert (T : match_type [] (skipn j (skipn k value)) <> None)
      by (destruct (match_type [] (skipn j (skipn k value)));
          [discriminate | discriminate M1]).
    set (D := takewhile isdigit value).
    set (W := takewhile isspace (dropwhile isdigit value)).
    set (R := dropwhile isspace (dropwhile isdigit value)).
    assert (V : value = (D ++ W) ++ R).
    { unfold D, W, R. rewrite <- app_assoc.
      rewrite (takewhile_dropwhile isspace), (takewhile_dropwhile isdigit).
      reflexivity. }
    assert (SD : skipn nd value = W ++ R).
    { unfold nd. fold D. rewrite V at 1. rewrite <- app_assoc.
      apply skipn_app_length. }
    assert (KJ : j + k <= length (D ++ W)).
    { rewrite length_app.
      assert (ND : nd = length D) by reflexivity.
      destruct (Nat.eq_dec k nd) as [->|NE].
      - rewrite SD in J.
        assert (LW : length (takewhile isspace (W ++ R)) = length W).
        { unfold W, R. rewrite (takewhile_dropwhile isspace). reflexivity. }
        lia.
      - rewrite (@takewhile_after_digit k value) in J by (fold nd; lia).
        cbn in J. lia. }
    unfold f. apply (@longest_first_complete _ _ 0 _ (length W)); [lia | |].
    - rewrite SD. unfold W at 2, R.
      rewrite (takewhile_dropwhile isspace). apply Nat.le_refl.
    - rewrite SD, skipn_app_length.
      assert (TR : match_type [] R <> None).
      { apply (@match_type_skip (skipn (j + k) (D ++ W))).
        - apply forallb_skipn. rewrite forallb_app. apply andb_true_iff. split.
          + unfold D. generalize (takewhile_all isdigit value).
            generalize (takewhile isdigit value). intros l.
            induction l as [|a l IH]; cbn; [reflexivity|].
            intros F. apply andb_true_iff in F. destruct F as [-> F].
            cbn. apply IH. exact F.
          + unfold W.
            generalize (takewhile_all isspace (dropwhile isdigit value)).
            generalize (takewhile isspace (dropwhile isdigit value)). intros l.
            induction l as [|a l IH]; cbn; [reflexivity|].
            intros F. apply andb_true_iff in F. destruct F as [-> F].
            rewrite orb_true_r. cbn. apply IH. exact F.
        - rewrite <- skipn_all_app by exact KJ. rewrite <- V.
          rewrite <- skipn_skipn. exact T. }
      destruct (match_type [] R) as [[b g]|]; [discriminate | contradiction]. }
  rewrite (@longest_first_top _ f 1 nd TOP) in M.
  unfold f in M. apply longest_first_sound in M. destruct M as (j & _ & _ & M).
  destruct (match_type [] (skipn j (skipn nd value))) as [[b g]|];
    [|discriminate].
  injection M as <- _ _. unfold nd. apply takewhile_firstn_eq.
Qed.



(** ** Reachable scanner states *)

Section Reachable.

Variable int_of_float : str -> conversion.

Lemma removelast_in_locations (name : str) :
  in_list name MECH_LOCATIONS || in_list name [lit "Head"; lit "Center Torso"]
  = true ->
  name <> [].
Proof.
  intros I ->. vm_compute in I. discriminate.
Qed.

Lemma process_line_well_formed (st st' : state) (line : str) :
  process_line int_of_float st line = Returned st' ->
  well_formed st -> well_formed st'.
Proof.
  intros P [WF WS]. unfold well_formed.
  scan_cases P; cbn;
    (split;
     [ intros F; try discriminate F; try congruence; eauto
     | intros sec SE; try discriminate SE; try congruence;
       first [ eapply WS; eassumption
             | apply WS; congruence
             | injection SE as <-;
               eapply removelast_in_locations; eassumption ] ]).
Qed.

Lemma scan_well_formed (lines : list str) (st st' : state) :
  scan int_of_float st lines = Returned st' ->
  well_formed st -> well_formed st'.
Proof.
  revert st. induction lines as [|line rest IH]; intros st S WF; cbn in S.
  - injection S as <-. exact WF.
  - destruct (process_line int_of_float st line) as [st1|] eqn:P;
      cbn in S; [|discriminate].
    eapply IH; [exact S|]. eapply process_line_well_formed; eassumption.
Qed.

Lemma initial_state_well_formed : well_formed initial_state.
Proof. split; [discriminate | intros sec; discriminate]. Qed.

End Reachable.

(** ** The text functions on examples *)

Example engine_match_lazy_group :
  engine_match (lit "300 (a)(b)") = Some (lit "300", lit "(a)", Some (lit "b"))
  /\ engine_match (lit "300 x()") = Some (lit "300", lit "x()", None)
  /\ engine_match (lit "12 ((a)") = Some (lit "12", [], Some (lit "(a"))
  /\ engine_match (lit "1 2") = Some (lit "1", lit "2", None)
  /\ engine_match (lit "x") = None.
Proof. vm_compute. repeat split. Qed.

Example engine_match_newlines :
  engine_match (lit "12 a" ++ [newline] ++ lit "b") = None
  /\ engine_match (lit "12 a" ++ [newline]) = Some (lit "12", lit "a", None)
  /\ engine_match (lit "12(a)" ++ [newline; newline]) = None.
Proof. vm_compute. repeat split. Qed.

Example parse_heat_sinks_examples :
  _parse_heat_sinks (lit "20 Double") = mkHeatSinks 20 (lit "Double")
  /\ _parse_heat_sinks (lit "20") = mkHeatSinks 20 (lit "Single")
  /\ _parse_heat_sinks (lit "Double") = mkHeatSinks 10 (lit "Single").
Proof. vm_compute. repeat split. Qed.

Example py_int_examples :
  py_int (lit "1_000") = Some 1000%Z /\ py_int (lit "-5") = Some (-5)%Z
  /\ py_int (lit "007") = Some 7%Z /\ py_int (lit "1__0") = None
  /\ py_int (lit "_1") = None /\ py_int (lit "+ 5") = None
  /\ py_int (lit "") = None /\ py_int (lit " 12 ") = Some 12%Z.
Proof. vm_compute. repeat split. Qed.

Example replace_examples :
  replace (lit "XX") (lit "Y") (lit "aXXXb") = lit "aYXb"
  /\ front_loc (ulit "CENTER_TORSO_REAR") = ulit "CENTER_TORSO"
  /\ clean_name (lit "Medium Laser(R)") = lit "Medium Laser"
  /\ clean_name (lit "Medium Laser (Rear)") = lit "Medium Laser (Rear)"
  /\ upper (lit "rtc") = ulit "RTC".
Proof. vm_compute. repeat split. Qed.

(** * Further properties of the converter *)

(** ** The field interpreter *)

Section FieldInterpreterFacts.

Variable int_of_float : str -> conversion.

Ltac key_cases :=
  unfold _parse_key_value;
  repeat match goal with
         | |- context [if eqb ?k ?l then _ else _] =>
             let E := fresh "E" in destruct (eqb k l) eqn:E
         | |- context [if ?c then _ else _] => destruct c
         | |- context [match py_int ?v with _ => _ end] => destruct (py_int v)
         | |- context [match int_of_float ?v with _ => _ end] =>
             let C := fresh "C" in destruct (int_of_float v) eqn:C
         | |- context [let (_, _) := ?p in _] => destruct p
         end.

Lemma parse_key_value_raised (key value : str) (d : RawRecord) :
  _parse_key_value int_of_float key value d = Raised ->
  key = lit "mass" /\ int_of_float value = OtherError.
Proof.
  key_cases; try discriminate. intros _.
  match goal with E : eqb key (lit "mass") = true |- _ =>
    apply eqb_eq in E; split; [exact E | reflexivity] end.
Qed.

Lemma parse_key_value_keeps (key value : str) (d d' : RawRecord) :
  _parse_key_value int_of_float key value d = Returned d' ->
  weapons d' = weapons d /\ criticals d' = criticals d /\ fluff d' = fluff d.
Proof.
  key_cases; try discriminate; intros [= <-]; cbn; repeat split.
Qed.


(** What [_parse_key_value] never touches: the weapons, the critical-slot
    lines and the fluff texts, which belong to the scanner.  The quirks
    only grow at their end. *)
Theorem parse_key_value_frame (key value : str) (d d' : RawRecord) :
  _parse_key_value int_of_float key value d = Returned d' ->
  weapons d' = weapons d /\ criticals d' = criticals d /\ fluff d' = fluff d
  /\ exists added, quirks d' = quirks d ++ added.
Proof.
  key_cases; try discriminate; intros [= <-]; cbn;
    repeat split; try reflexivity;
    first [ exists []; rewrite app_nil_r; reflexivity
          | eexists; reflexivity ].
Qed.

(** A key that is not one of the names of the chain and does not end in
    "armor" changes nothing. *)
Theorem parse_key_value_unknown_key (key value : str) (d : RawRecord) :
  in_list key known_keys = false ->
  endswith (lit "armor") key = false ->
  _parse_key_value int_of_float key value d = Returned d.
Proof.
  unfold in_list, known_keys. cbn [existsb]. intros K A.
  repeat match type of K with
         | _ || _ = false =>
             apply orb_false_iff in K;
             let K1 := fresh "K" in destruct K as [K1 K]
         end.
  assert (A' : endswith (lit "_armor") key = false).
  { destruct (endswith (lit "_armor") key) eqn:E; [|reflexivity].
    unfold endswith in E, A.
    change (rev (lit "_armor")) with (rev (lit "armor") ++ ["_"%char]) in E.
    apply startswith_app in E. destruct E as [r E].
    rewrite E in A. rewrite <- app_assoc in A.
    assert (S : forall p q : str, startswith p (p ++ q) = true).
    { intros p q. induction p as [|a p IH]; cbn; [reflexivity|].
      change (eqb a a && startswith p (p ++ q) = true).
      rewrite eqb_refl. exact IH. }
    rewrite S in A. discriminate A. }
  unfold _parse_key_value. rewrite A, A'. cbn [orb].
  repeat match goal with
         | H : eqb key ?l = false |- context [eqb key ?l] => rewrite H
         end.
  reflexivity.
Qed.

End FieldInterpreterFacts.

(** ** The scan as a whole *)

Lemma in_list_In (x : str) (xs : list str) : in_list x xs = true -> In x xs.
Proof.
  unfold in_list. intros E. apply existsb_exists in E.
  destruct E as (y & I & E). apply eqb_eq in E. subst y. exact I.
Qed.

Lemma In_set {K V} `{EqbOk K} (k k' : K) (v v' : V) (d : Dict.t K V) :
  In (k', v') (Dict.set k v d) -> (k' = k /\ v' = v) \/ In (k', v') d.
Proof.
  induction d as [|[k0 v0] d IH]; cbn.
  - intros [[= <- <-]|[]]. left; auto.
  - destruct (eqb k k0) eqn:E; cbn.
    + apply eqb_eq in E. subst k0. intros [[= <- <-]|I]; auto.
    + intros [I|I]; auto. destruct (IH I); auto.
Qed.

Lemma fluff_header_field (lc field : str) :
  fluff_header lc = Some field ->
  In field fluff_fields /\ startswith (field ++ lit ":") (lower lc) = true.
Proof. unfold fluff_header. intros F. apply find_some in F. exact F. Qed.

Ltac line_cases :=
  unfold process_line; cbv zeta;
  repeat match goal with
         | |- context [match fluff_header ?x with _ => _ end] =>
             destruct (fluff_header x) eqn:?
         | |- context [if ?c then _ else _] => destruct c eqn:?
         | |- context [let (_, _) := split1 ?a ?b in _] =>
             destruct (split1 a b) eqn:?
         | |- context [bind ?m _] => destruct m eqn:?; cbn [bind]
         | |- context [match current_section ?s with _ => _ end] =>
             destruct (current_section s) eqn:?
         end.

Section ScanFacts.

Variable int_of_float : str -> conversion.

Lemma process_line_returns (st : state) (line : str) :
  (forall v, int_of_float v <> OtherError) ->
  exists st', process_line int_of_float st line = Returned st'.
Proof.
  intros OK. line_cases; try (eexists; reflexivity).
  match goal with
  | R : _parse_key_value _ _ _ _ = Raised |- _ =>
      apply parse_key_value_raised in R; destruct R as [_ R];
      destruct (OK _ R)
  end.
Qed.

Lemma scan_returns (lines : list str) (st : state) :
  (forall v, int_of_float v <> OtherError) ->
  exists st', scan int_of_float st lines = Returned st'.
Proof.
  intros OK. revert st. induction lines as [|line rest IH]; intros st; cbn.
  - eexists; reflexivity.
  - destruct (@process_line_returns st line OK) as [st1 ->]. cbn. apply IH.
Qed.

Lemma save_fluff_keys (st : state) :
  scan_invariant st ->
  forall k v, In (k, v) (fluff (save_fluff st)) -> In k fluff_fields.
Proof.
  intros (_ & _ & I3 & I4) k v. unfold save_fluff.
  destruct (in_fluff st) eqn:F; cbn [andb]; [|apply I3].
  destruct (nonempty (fluff_buffer st)); [|apply I3].
  destruct (I4 eq_refl) as (_ & field & -> & FI). cbn.
  intros I. apply In_set in I. destruct I as [[-> _]|I]; [exact FI|].
  eapply I3; exact I.
Qed.

Lemma save_section_keys (st : state) :
  scan_invariant st ->
  forall k v, In (k, v) (criticals (save_section st)) ->
              In k MECH_LOCATIONS /\ v <> [].
Proof.
  intros (I1 & I2 & _ & _) k v. unfold save_section, section_pending.
  destruct (current_section st) as [sec|] eqn:S; [|apply I2].
  destruct (section_open st && nonempty (current_section_items st)) eqn:P;
    [|apply I2].
  cbn. intros I. apply In_set in I. destruct I as [[-> ->]|I]; [|apply I2; exact I].
  split; [apply I1; reflexivity|].
  apply andb_true_iff in P. destruct P as [_ P].
  destruct (current_section_items st); discriminate.
Qed.

Lemma save_section_fluff (st : state) :
  fluff (save_section st) = fluff (data st).
Proof.
  unfold save_section. destruct (current_section st); [|reflexivity].
  destruct (section_pending st); reflexivity.
Qed.

Lemma process_line_invariant (st st' : state) (line : str) :
  process_line int_of_float st line = Returned st' ->
  scan_invariant st -> scan_invariant st'.
Proof.
  intros P INV.
  pose proof (save_fluff_keys INV) as SFK.
  pose proof (save_section_keys INV) as SSK.
  pose proof (save_fluff_criticals st) as SFC.
  pose proof (save_section_fluff st) as SSF.
  pose proof INV as (I1 & I2 & I3 & I4).
  assert (SFC' : forall k v, In (k, v) (criticals (save_fluff st)) ->
                             In k MECH_LOCATIONS /\ v <> [])
    by (intros k v I; rewrite SFC in I; exact (I2 k v I)).
  assert (SSF' : forall k v, In (k, v) (fluff (save_section st)) ->
                             In k fluff_fields)
    by (intros k v I; rewrite SSF in I; exact (I3 k v I)).
  unfold process_line in P. cbv zeta in P.
  destruct (negb (nonempty (strip line)) || startswith (lit "#") (strip line)).
  { destruct (in_fluff st && nonempty (fluff_buffer st));
      injection P as <-; [|exact INV].
    split; [exact I1|]. split; [exact SFC'|]. split; [exact SFK|].
    discriminate. }
  destruct (fluff_header (strip line)) as [field|] eqn:FH.
  { injection P as <-. apply fluff_header_field in FH. destruct FH as [FI _].
    split; [exact I1|]. split; [exact SFC'|]. split; [exact SFK|].
    intros _. split; [discriminate|]. exists field. auto. }
  destruct (in_fluff st) eqn:F.
  { injection P as <-. destruct (I4 eq_refl) as (B & field & C & FI).
    split; [exact I1|]. split; [exact I2|]. split; [exact I3|].
    intros _. cbn. split.
    - intros E. apply app_eq_nil in E. destruct E as [_ E]. discriminate E.
    - exists field. auto. }
  destruct (header_shaped (strip line)).
  { destruct (in_list (removelast (strip line)) MECH_LOCATIONS
              || in_list (removelast (strip line))
                   [lit "Head"; lit "Center Torso"]) eqn:L;
      injection P as <-.
    - split; [|split; [exact SSK|split; [exact SSF'|discriminate]]].
      intros sec E. cbn in E. injection E as <-.
      apply orb_true_iff in L. destruct L as [L|L].
      + apply in_list_In. exact L.
      + apply in_list_In in L. destruct L as [<-|[<-|[]]]; cbn; auto.
    - split; [exact I1|]. split; [exact SSK|]. split; [exact SSF'|].
      discriminate. }
  destruct (startswith (lit "weapons:") (lower (strip line))).
  { injection P as <-.
    split; [discriminate|]. split; [exact SSK|]. split; [exact SSF'|].
    discriminate. }
  destruct (in_weapons_section st).
  { destruct (has_char ","%char (strip line));
      [destruct (split1 ","%char (strip line))|]; injection P as <-.
    - split; [exact I1|]. split; [exact I2|]. split; [exact I3|].
      discriminate.
    - exact INV. }
  destruct (has_char ":"%char (strip line)).
  { destruct (split1 ":"%char (strip line)) as [key value].
    destruct (_parse_key_value int_of_float
                (replace (lit " ") (lit "_") (lower (strip key)))
                (strip value) (data st)) as [d'|] eqn:KV;
      cbn in P; [|discriminate].
    injection P as <-. apply parse_key_value_keeps in KV.
    destruct KV as (_ & KC & KF).
    split; [exact I1|]. cbn. rewrite KC, KF.
    split; [exact I2|]. split; [exact I3|]. discriminate. }
  destruct (current_section st) as [sec|] eqn:S;
    [|injection P as <-; exact INV].
  destruct (section_open st); [|injection P as <-; exact INV].
  injection P as <-.
  split; [exact I1|]. split; [|split; [|discriminate]].
  - destruct (items_shared st); cbn; [|exact I2].
    intros k v I. apply In_set in I. destruct I as [[-> ->]|I];
      [|exact (I2 k v I)].
    split; [apply I1; reflexivity|].
    intros E. apply app_eq_nil in E. destruct E as [_ E]. discriminate E.
  - destruct (items_shared st); cbn; exact I3.
Qed.

Lemma scan_invariant_holds (lines : list str) (st st' : state) :
  scan int_of_float st lines = Returned st' ->
  scan_invariant st -> scan_invariant st'.
Proof.
  revert st. induction lines as [|line rest IH]; intros st S INV; cbn in S.
  - injection S as <-. exact INV.
  - destruct (process_line int_of_float st line) as [st1|] eqn:P;
      cbn in S; [|discriminate].
    eapply IH; [exact S|]. eapply process_line_invariant; eassumption.
Qed.

Lemma initial_invariant : scan_invariant initial_state.
Proof.
  repeat split; cbn; try discriminate; intros; contradiction.
Qed.

(** Whatever the input, every location of the parsed record's
    critical-slot lines is one of the eight location names and has at
    least one content line, and every name of its fluff dictionary is one
    of the seven fluff fields. *)
Theorem parsed_record_keys (lines : list str) (d : RawRecord) :
  parse_record int_of_float lines = Returned d ->
  (forall k v, In (k, v) (criticals d) -> In k MECH_LOCATIONS /\ v <> [])
  /\ (forall k v, In (k, v) (fluff d) -> In k fluff_fields).
Proof.
  unfold parse_record. intros P.
  destruct (scan int_of_float initial_state lines) as [st|] eqn:S;
    cbn in P; [|discriminate].
  injection P as <-.
  pose proof (scan_invariant_holds _ S initial_invariant) as INV.
  unfold finish. split.
  - intros k v I. rewrite save_fluff_criticals in I. cbn in I.
    apply (save_section_keys INV k v I).
  - assert (INV' : scan_invariant
                     (mkState (save_section st) (current_section st)
                              (current_section_items st) (items_shared st)
                              (in_weapons_section st) (in_fluff st)
                              (current_fluff_field st) (fluff_buffer st))).
    { pose proof INV as (I1 & I2 & I3 & I4).
      split; [exact I1|]. split; [exact (save_section_keys INV)|].
      split; [|exact I4].
      intros k v I. cbn in I. rewrite save_section_fluff in I.
      exact (I3 k v I). }
    apply (save_fluff_keys INV').
Qed.

End ScanFacts.

Section ScanTotal.

Context `{EnumMappings}.


End ScanTotal.


(** ** Lines without a colon *)

Lemma lower_char_colon (c : ascii) : lower_char c = ":"%char -> c = ":"%char.
Proof.
  destruct c as [[] [] [] [] [] [] [] []]; vm_compute; intros E;
    first [reflexivity | discriminate E].
Qed.

Lemma has_char_In {A} `{EqbOk A} (c : A) (s : list A) :
  has_char c s = true <-> In c s.
Proof.
  unfold has_char. rewrite existsb_exists. split.
  - intros (x & I & E). apply eqb_eq in E. subst x. exact I.
  - intros I. exists c. split; [exact I | apply eqb_refl].
Qed.

Lemma no_colon_lower (lc : str) :
  has_char ":"%char lc = false -> has_char ":"%char (lower lc) = false.
Proof.
  intros N. destruct (has_char ":"%char (lower lc)) eqn:E; [|reflexivity].
  apply has_char_In in E. unfold lower in E. apply in_map_iff in E.
  destruct E as (c & L & I). apply lower_char_colon in L. subst c.
  apply has_char_In in I. congruence.
Qed.

Lemma startswith_colon (p s : str) :
  In ":"%char p -> has_char ":"%char s = false -> startswith p s = false.
Proof.
  intros I N. destruct (startswith p s) eqn:S; [|reflexivity].
  apply startswith_app in S. destruct S as [r ->].
  assert (C : has_char ":"%char (p ++ r) = true).
  { apply has_char_In. apply in_or_app. left; exact I. }
  congruence.
Qed.

Lemma find_all_false {A} (f : A -> bool) (l : list A) :
  (forall x, In x l -> f x = false) -> find f l = None.
Proof.
  induction l as [|a l IH]; intros F; cbn; [reflexivity|].
  rewrite (F a) by (left; reflexivity). apply IH.
  intros x I. apply F. right; exact I.
Qed.

(** A line without a colon is no fluff header, no section header and not
    the weapons header. *)
Lemma no_colon_line (lc : str) :
  has_char ":"%char lc = false ->
  fluff_header lc = None /\ header_shaped lc = false
  /\ startswith (lit "weapons:") (lower lc) = false.
Proof.
  intros N. pose proof (no_colon_lower lc N) as NL. split; [|split].
  - unfold fluff_header. apply find_all_false. intros field _.
    apply startswith_colon; [|exact NL].
    apply in_or_app. right. left. reflexivity.
  - unfold header_shaped, endswith.
    assert (E : startswith (rev (lit ":")) (rev lc) = false).
    { apply startswith_colon; [left; reflexivity|].
      destruct (has_char ":"%char (rev lc)) eqn:R; [|reflexivity].
      apply has_char_In in R. apply in_rev in R. apply has_char_In in R.
      congruence. }
    rewrite E. reflexivity.
  - apply startswith_colon; [|exact NL]. cbn. tauto.
Qed.

Lemma plain_line_facts (line : str) :
  plain_line line = true ->
  negb (nonempty (strip line)) || startswith (lit "#") (strip line) = false
  /\ has_char ":"%char (strip line) = false.
Proof.
  unfold plain_line, skipped. intros P. apply andb_true_iff in P.
  destruct P as [S C]. apply negb_true_iff in S, C. auto.
Qed.

Section SectionLines.

Variable int_of_float : str -> conversion.

Lemma process_skipped_line (st : state) (line : str) :
  in_fluff st = false -> skipped line = true ->
  process_line int_of_float st line = Returned st.
Proof.
  unfold skipped, process_line. intros F S. cbv zeta. rewrite S, F. reflexivity.
Qed.

Lemma process_plain_line (st : state) (line sec : str) :
  in_fluff st = false -> in_weapons_section st = false ->
  items_shared st = false ->
  current_section st = Some sec -> sec <> [] ->
  plain_line line = true ->
  process_line int_of_float st line
  = Returned (mkState (data st) (Some sec)
                      (current_section_items st ++ [strip line]) false false
                      false (current_fluff_field st) (fluff_buffer st)).
Proof.
  intros F W SH S NE P. apply plain_line_facts in P. destruct P as [SK C].
  destruct (no_colon_line _ C) as (FH & HS & WH).
  unfold process_line. cbv zeta.
  rewrite SK, FH, F, HS, WH, W, C. unfold section_open. rewrite S, SH.
  destruct sec; [contradiction|]. reflexivity.
Qed.

Lemma scan_section_lines (lines : list str) (st : state) (sec : str) :
  in_fluff st = false -> in_weapons_section st = false ->
  items_shared st = false ->
  current_section st = Some sec -> sec <> [] ->
  (forall l, In l lines -> skipped l = true \/ plain_line l = true) ->
  scan int_of_float st lines
  = Returned (mkState (data st) (Some sec)
                      (current_section_items st
                       ++ map strip (filter plain_line lines))
                      false false false (current_fluff_field st)
                      (fluff_buffer st)).
Proof.
  revert st. induction lines as [|line rest IH]; intros st F W SH S NE K.
  - cbn. rewrite app_nil_r. destruct st; cbn in *. subst. reflexivity.
  - cbn [scan filter].
    assert (K' : forall l, In l rest -> skipped l = true \/ plain_line l = true)
      by (intros l I; apply K; right; exact I).
    destruct (plain_line line) eqn:P.
    + rewrite (process_plain_line st line F W SH S NE P). cbn [bind].
      rewrite IH by (cbn; auto). cbn. rewrite <- app_assoc. reflexivity.
    + destruct (K line (or_introl eq_refl)) as [SK|PL]; [|congruence].
      rewrite (process_skipped_line st line F SK). cbn [bind].
      apply IH; assumption.
Qed.

Lemma header_line_opens (st : state) (name : str) :
  in_fluff st = false -> In name MECH_LOCATIONS ->
  process_line int_of_float st (name ++ lit ":")
  = Returned (mkState (save_section st) (Some name) [] false false false
                      (current_fluff_field st) (fluff_buffer st)).
Proof.
  intros F I. unfold process_line. cbv zeta.
  destruct I as [<-|[<-|[<-|[<-|[<-|[<-|[<-|[<-|[]]]]]]]]];
    rewrite F; reflexivity.
Qed.

(** A section of the input comes back as its content lines: after the
    header of a location, lines that are blank, comments or free of colons
    give, at the end of the input, the stripped colon-free lines in their
    order as the critical-slot lines of that location. *)
Theorem section_lines_round_trip (st : state) (name : str)
    (lines : list str) :
  in_fluff st = false ->
  In name MECH_LOCATIONS ->
  (forall l, In l lines -> skipped l = true \/ plain_line l = true) ->
  filter plain_line lines <> [] ->
  exists st',
    scan int_of_float st ((name ++ lit ":") :: lines) = Returned st'
    /\ current_section st' = Some name
    /\ current_section_items st' = map strip (filter plain_line lines)
    /\ Dict.get name (criticals (finish st'))
       = Some (map strip (filter plain_line lines)).
Proof.
  intros F I K NE.
  assert (N : name <> []).
  { intros ->. destruct I as [E|[E|[E|[E|[E|[E|[E|[E|[]]]]]]]]];
      discriminate E. }
  cbn [scan]. rewrite (header_line_opens st F I). cbn [bind].
  rewrite (@scan_section_lines lines _ name) by (cbn; auto).
  eexists. split; [reflexivity|]. cbn.
  split; [reflexivity|]. split; [reflexivity|].
  unfold finish, save_fluff. cbn.
  unfold save_section, section_pending, section_open. cbn.
  destruct name as [|c name]; [contradiction|].
  destruct (map strip (filter plain_line lines)) as [|x xs] eqn:M.
  - apply map_eq_nil in M. contradiction.
  - cbn. apply get_set_same.
Qed.

End SectionLines.

(** Two content lines around a comment, after the head header. *)
Lemma section_lines_round_trip_witness :
  exists st',
    scan sample_int_of_float initial_state
         [lit "Head:"; lit "Life Support"; lit "# note"; lit " Sensors "]
    = Returned st'
    /\ Dict.get (lit "Head") (criticals (finish st'))
       = Some [lit "Life Support"; lit "Sensors"].
Proof.
  destruct (@section_lines_round_trip sample_int_of_float initial_state
              (lit "Head")
              [lit "Life Support"; lit "# note"; lit " Sensors "])
    as (st' & S & _ & _ & G).
  - reflexivity.
  - left; reflexivity.
  - intros l [<-|[<-|[<-|[]]]]; vm_compute; auto.
  - vm_compute. discriminate.
  - exists st'. split; [exact S | exact G].
Defined.

(** ** Fluff fields and the weapons section *)

(** A fluff header is neither blank nor a comment. *)
Lemma fluff_header_not_skipped (lc field : str) :
  fluff_header lc = Some field ->
  negb (nonempty lc) || startswith (lit "#") lc = false.
Proof.
  intros FH. apply fluff_header_field in FH. destruct FH as [I S].
  apply startswith_app in S. destruct S as [r E].
  destruct lc as [|c rest].
  - destruct I as [<-|[<-|[<-|[<-|[<-|[<-|[<-|[]]]]]]]]; discriminate E.
  - cbn [nonempty negb orb].
    change (startswith (lit "#") (c :: rest)) with (eqb "#"%char c && true).
    rewrite andb_true_r.
    destruct (eqb "#"%char c) eqn:Q; [|reflexivity].
    apply eqb_eq in Q. subst c.
    destruct I as [<-|[<-|[<-|[<-|[<-|[<-|[<-|[]]]]]]]]; discriminate E.
Qed.

(** The weapons header is neither blank, nor a comment, nor a fluff
    header. *)
Lemma weapons_header_facts (lc : str) :
  startswith (lit "weapons:") (lower lc) = true ->
  negb (nonempty lc) || startswith (lit "#") lc = false
  /\ fluff_header lc = None.
Proof.
  intros S. apply startswith_app in S. destruct S as [r E]. split.
  - destruct lc as [|c rest]; [discriminate E|].
    cbn [nonempty negb orb].
    change (startswith (lit "#") (c :: rest)) with (eqb "#"%char c && true).
    rewrite andb_true_r.
    destruct (eqb "#"%char c) eqn:Q; [|reflexivity].
    apply eqb_eq in Q. subst c. discriminate E.
  - unfold fluff_header. rewrite E. apply find_all_false.
    intros field I.
    destruct I as [<-|[<-|[<-|[<-|[<-|[<-|[<-|[]]]]]]]]; reflexivity.
Qed.

Section FluffAndWeapons.

Variable int_of_float : str -> conversion.

Lemma scan_fluff_body (body : list str) (st : state) :
  in_fluff st = true ->
  (forall l, In l body ->
             skipped l = false /\ fluff_header (strip l) = None) ->
  scan int_of_float st body
  = Returned (mkState (data st) (current_section st)
                      (current_section_items st) (items_shared st)
                      (in_weapons_section st) true (current_fluff_field st)
                      (fluff_buffer st ++ map strip body)).
Proof.
  revert st. induction body as [|line rest IH]; intros st F K.
  - cbn. rewrite app_nil_r. destruct st; cbn in *. subst. reflexivity.
  - cbn [scan map]. destruct (K line (or_introl eq_refl)) as [SK FH].
    unfold process_line at 1. cbv zeta. unfold skipped in SK.
    rewrite SK, FH, F. cbn [bind].
    rewrite IH; [|reflexivity|intros l I; apply K; right; exact I].
    cbn. rewrite <- app_assoc. reflexivity.
Qed.

(** A fluff field comes back as its text: a fluff header, then lines that
    are neither blank, nor comments, nor fluff headers, then a blank line
    or a comment store under the field's name the rest of the header line
    and the stripped lines, joined by newlines and stripped; the field is
    closed and nothing else of the state changes, whatever the lines hold
    (keys, section headers, weapons). *)
Theorem fluff_field_round_trip (st : state) (header field : str)
    (body : list str) (closing : str) :
  fluff_header (strip header) = Some field ->
  (forall l, In l body ->
             skipped l = false /\ fluff_header (strip l) = None) ->
  skipped closing = true ->
  let text :=
    strip (join [newline]
                (strip (skipn (length field + 1) (strip header))
                 :: map strip body)) in
  scan int_of_float st (header :: body ++ [closing])
  = Returned (mkState
                (with_fluff (Dict.set field text (fluff (save_fluff st)))
                            (save_fluff st))
                (current_section st) (current_section_items st)
                (items_shared st) (in_weapons_section st) false None [])
  /\ Dict.get field (Dict.set field text (fluff (save_fluff st))) = Some text.
Proof.
  intros FH K C text. split; [|apply get_set_same].
  cbn [scan]. unfold process_line at 1. cbv zeta.
  rewrite (fluff_header_not_skipped _ FH), FH. cbn [bind].
  assert (SC : forall s l1 l2,
             scan int_of_float s (l1 ++ l2)
             = (s' <- scan int_of_float s l1 ;; scan int_of_float s' l2)).
  { intros s l1. revert s. induction l1 as [|x l1 IH]; intros s l2; cbn;
      [reflexivity|].
    destruct (process_line int_of_float s x); cbn; [apply IH | reflexivity]. }
  rewrite SC. rewrite scan_fluff_body by (cbn; auto). cbn [bind scan].
  unfold process_line. cbv zeta. unfold skipped in C. rewrite C. cbn.
  reflexivity.
Qed.

Lemma process_weapons_line (st : state) (line : str) :
  in_fluff st = false -> in_weapons_section st = true ->
  weapons_line line = true ->
  process_line int_of_float st line
  = Returned (if has_char ","%char (strip line)
              then mkState (with_weapons
                              (weapons (data st) ++ [weapon_of_line line])
                              (data st))
                           (current_section st) (current_section_items st)
                           (items_shared st) true false
                           (current_fluff_field st) (fluff_buffer st)
              else st).
Proof.
  unfold weapons_line, skipped. intros F W L.
  apply andb_true_iff in L. destruct L as [L WH].
  apply andb_true_iff in L. destruct L as [L HS].
  apply andb_true_iff in L. destruct L as [SK FH].
  apply negb_true_iff in SK, HS, WH.
  destruct (fluff_header (strip line)) eqn:FHE; [discriminate FH|].
  unfold process_line. cbv zeta. rewrite SK, FHE, F, HS, WH, W.
  unfold weapon_of_line.
  destruct (has_char ","%char (strip line)); [|reflexivity].
  destruct (split1 ","%char (strip line)). reflexivity.
Qed.

Lemma scan_weapons_lines (lines : list str) (st : state) :
  in_fluff st = false -> in_weapons_section st = true ->
  (forall l, In l lines -> skipped l = true \/ weapons_line l = true) ->
  exists st',
    scan int_of_float st lines = Returned st'
    /\ in_fluff st' = false /\ in_weapons_section st' = true
    /\ current_section st' = current_section st
    /\ current_section_items st' = current_section_items st
    /\ weapons (data st')
       = weapons (data st)
         ++ map weapon_of_line
              (filter (fun l => weapons_line l
                                && has_char ","%char (strip l)) lines).
Proof.
  revert st. induction lines as [|line rest IH]; intros st F W K.
  - exists st. cbn. rewrite app_nil_r. repeat split; assumption.
  - assert (K' : forall l, In l rest ->
                           skipped l = true \/ weapons_line l = true)
      by (intros l I; apply K; right; exact I).
    cbn [scan filter]. destruct (weapons_line line) eqn:WL.
    + rewrite (process_weapons_line st line F W WL). cbn [bind andb].
      destruct (has_char ","%char (strip line)).
      * destruct (IH (mkState (with_weapons
                                 (weapons (data st) ++ [weapon_of_line line])
                                 (data st))
                              (current_section st) (current_section_items st)
                              (items_shared st) true false
                              (current_fluff_field st) (fluff_buffer st))
                     eq_refl eq_refl K')
          as (st' & S & F' & W' & CS & CI & WE).
        exists st'. cbn in CS, CI, WE. rewrite <- app_assoc in WE.
        repeat split; assumption.
      * apply IH; assumption.
    + destruct (K line (or_introl eq_refl)) as [SK|WL']; [|congruence].
      rewrite (process_skipped_line int_of_float st line F SK). cbn [bind andb].
      apply IH; assumption.
Qed.

Lemma finish_weapons (st : state) : weapons (finish st) = weapons (data st).
Proof.
  unfold finish, save_fluff, save_section. cbn.
  destruct (in_fluff st && nonempty (fluff_buffer st));
    [destruct (current_fluff_field st)|];
    destruct (current_section st); try destruct (section_pending st);
    reflexivity.
Qed.

(** The weapons section comes back in order: after a weapons header
    (text follows its colon), the lines of the section that hold a comma
    are appended to the weapons of the record, one weapon a line, name
    and location stripped, in the order of the lines; blank lines,
    comments and lines without a comma add nothing. *)
Theorem weapons_lines_in_order (st : state) (header : str)
    (lines : list str) :
  in_fluff st = false ->
  startswith (lit "weapons:") (lower (strip header)) = true ->
  header_shaped (strip header) = false ->
  (forall l, In l lines -> skipped l = true \/ weapons_line l = true) ->
  exists st',
    scan int_of_float st (header :: lines) = Returned st'
    /\ in_weapons_section st' = true
    /\ weapons (finish st')
       = weapons (data st)
         ++ map weapon_of_line
              (filter (fun l => weapons_line l
                                && has_char ","%char (strip l)) lines).
Proof.
  intros F WH HS K. destruct (weapons_header_facts _ WH) as [SK FH].
  cbn [scan]. unfold process_line at 1. cbv zeta.
  rewrite SK, FH, F, HS, WH. cbn [bind].
  destruct (@scan_weapons_lines lines
              (mkState (save_section st) None [] false true false
                       (current_fluff_field st) (fluff_buffer st))
              eq_refl eq_refl K)
    as (st' & S & _ & W' & _ & _ & WE).
  exists st'. split; [exact S|]. split; [exact W'|].
  rewrite finish_weapons, WE. cbn. f_equal.
  unfold save_section. destruct (current_section st); [|reflexivity].
  destruct (section_pending st); reflexivity.
Qed.

(** A weapons header with nothing after its colon is a section header
    of an unknown name: the weapons section is not opened by it, and the
    section that was open stays open. *)
Theorem bare_weapons_header_is_ignored (st : state) (line : str) :
  in_fluff st = false ->
  lower (strip line) = lit "weapons:" ->
  process_line int_of_float st line
  = Returned (mkState (save_section st) (current_section st)
                      (current_section_items st)
                      (items_shared st || section_pending st)
                      (in_weapons_section st) false (current_fluff_field st)
                      (fluff_buffer st)).
Proof.
  intros F L.
  assert (WH : startswith (lit "weapons:") (lower (strip line)) = true)
    by (rewrite L; reflexivity).
  destruct (weapons_header_facts _ WH) as [SK FH].
  unfold process_line. cbv zeta. rewrite SK, FH, F.
  destruct (strip line) as [|c1 [|c2 [|c3 [|c4 [|c5 [|c6 [|c7 [|c8 [|c9 r]]]]]]]]];
    try discriminate L.
  injection L as L1 L2 L3 L4 L5 L6 L7 L8.
  apply lower_char_colon in L8. subst c8.
  assert (NC : forall c x, lower_char c = x -> x <> ":"%char ->
                           eqb ":"%char c = false).
  { intros c x E N. apply eqb_neq. intros <-. apply N. rewrite <- E.
    reflexivity. }
  assert (HS : header_shaped [c1; c2; c3; c4; c5; c6; c7; ":"%char] = true).
  { unfold header_shaped, endswith, has_char. cbn [rev app removelast existsb].
    change (startswith (rev (lit ":")) [":"%char; c7; c6; c5; c4; c3; c2; c1])
      with (eqb ":"%char ":"%char && true).
    rewrite (NC _ _ L1), (NC _ _ L2), (NC _ _ L3), (NC _ _ L4),
            (NC _ _ L5), (NC _ _ L6), (NC _ _ L7) by discriminate.
    reflexivity. }
  rewrite HS.
  assert (NL : forall name,
             In name (MECH_LOCATIONS ++ [lit "Head"; lit "Center Torso"]) ->
             lower name <> lit "weapons").
  { intros name I.
    repeat (destruct I as [<-|I]; [vm_compute; discriminate|]).
    destruct I. }
  assert (LR : lower (removelast [c1; c2; c3; c4; c5; c6; c7; ":"%char])
               = lit "weapons").
  { cbn [removelast lower map]. rewrite L1, L2, L3, L4, L5, L6, L7.
    reflexivity. }
  destruct (in_list (removelast [c1; c2; c3; c4; c5; c6; c7; ":"%char])
                    MECH_LOCATIONS
            || in_list (removelast [c1; c2; c3; c4; c5; c6; c7; ":"%char])
                       [lit "Head"; lit "Center Torso"]) eqn:IL;
    [|reflexivity].
  exfalso. apply (NL (removelast [c1; c2; c3; c4; c5; c6; c7; ":"%char]));
    [|exact LR].
  apply in_or_app. apply orb_true_iff in IL.
  destruct IL as [IL|IL]; [left | right]; apply in_list_In; exact IL.
Qed.

End FluffAndWeapons.

Lemma parsed_record_keys_witness :
  exists d,
    parse_record sample_int_of_float
                 [lit "Left Arm:"; lit "Shoulder"; lit "Overview: big"]
    = Returned d
    /\ (forall k v, In (k, v) (criticals d) -> In k MECH_LOCATIONS /\ v <> []).
Proof.
  destruct (parse_record sample_int_of_float
              [lit "Left Arm:"; lit "Shoulder"; lit "Overview: big"])
    as [d|] eqn:P; [|vm_compute in P; discriminate].
  exists d. split; [reflexivity|].
  exact (proj1 (@parsed_record_keys sample_int_of_float _ d P)).
Defined.

Lemma parse_key_value_frame_witness :
  let d := with_quirks [lit "Easy to Maintain"] empty_record in
  exists d',
    _parse_key_value sample_int_of_float (lit "quirk") (lit "Rugged") d
    = Returned d'
    /\ criticals d' = criticals d
    /\ exists added, quirks d' = quirks d ++ added.
Proof.
  intros d. eexists. split; [reflexivity|].
  destruct (@parse_key_value_frame sample_int_of_float (lit "quirk")
              (lit "Rugged") d _ eq_refl) as (_ & C & _ & Q).
  split; [exact C | exact Q].
Defined.

Lemma parse_key_value_unknown_key_witness :
  _parse_key_value sample_int_of_float (lit "nocrit") (lit "x") empty_record
  = Returned empty_record.
Proof.
  exact (@parse_key_value_unknown_key sample_int_of_float (lit "nocrit")
           (lit "x") empty_record eq_refl eq_refl).
Defined.

Lemma fluff_field_round_trip_witness :
  scan sample_int_of_float initial_state
       [lit "Overview: A big one."; lit "chassis:Atlas"; lit "Head:"; lit ""]
  = Returned (mkState
                (with_fluff
                   [(lit "overview",
                     lit "A big one." ++ [newline] ++ lit "chassis:Atlas"
                     ++ [newline] ++ lit "Head:")]
                   empty_record)
                None [] false false false None []).
Proof.
  refine (proj1 (@fluff_field_round_trip sample_int_of_float initial_state
                   (lit "Overview: A big one.") (lit "overview")
                   [lit "chassis:Atlas"; lit "Head:"] (lit "")
                   eq_refl _ eq_refl)).
  intros l [<-|[<-|[]]]; split; reflexivity.
Defined.

Lemma weapons_lines_in_order_witness :
  exists st',
    scan sample_int_of_float initial_state
         [lit "Weapons:2"; lit "Medium Laser, Left Arm"; lit "";
          lit "LRM 20, Left Torso, Ammo:12"]
    = Returned st'
    /\ weapons (finish st')
       = [mkWeapon (lit "Medium Laser") (lit "Left Arm");
          mkWeapon (lit "LRM 20") (lit "Left Torso, Ammo:12")].
Proof.
  destruct (@weapons_lines_in_order sample_int_of_float initial_state
              (lit "Weapons:2")
              [lit "Medium Laser, Left Arm"; lit "";
               lit "LRM 20, Left Torso, Ammo:12"])
    as (st' & S & _ & W).
  - reflexivity.
  - reflexivity.
  - reflexivity.
  - intros l [<-|[<-|[<-|[]]]]; vm_compute; auto.
  - exists st'. split; [exact S | exact W].
Defined.

Lemma bare_weapons_header_is_ignored_witness :
  process_line sample_int_of_float
               (mkState empty_record (Some (lit "Head")) [lit "Sensors"]
                        false false false None [])
               (lit "Weapons:")
  = Returned (mkState (with_criticals [(lit "Head", [lit "Sensors"])]
                                      empty_record)
                      (Some (lit "Head")) [lit "Sensors"] true false false
                      None []).
Proof.
  exact (@bare_weapons_header_is_ignored sample_int_of_float
           (mkState empty_record (Some (lit "Head")) [lit "Sensors"]
                    false false false None [])
           (lit "Weapons:") eq_refl eq_refl).
Defined.

(** ** The sub-parsers *)

Lemma dropwhile_head {A} (f : A -> bool) (s : list A) (c : A) (t : list A) :
  dropwhile f s = c :: t -> f c = false.
Proof.
  induction s as [|a s IH]; cbn; [discriminate|].
  destruct (f a) eqn:E; [exact IH|]. intros [= <- _]. exact E.
Qed.

Lemma dropwhile_twice {A} (f : A -> bool) (s : list A) :
  dropwhile f (dropwhile f s) = dropwhile f s.
Proof.
  destruct (dropwhile f s) as [|c t] eqn:D; [reflexivity|].
  apply dropwhile_head in D. cbn. rewrite D. reflexivity.
Qed.

Lemma dropwhile_app_last {A} (f : A -> bool) (l : list A) (c : A) :
  f c = false -> dropwhile f (l ++ [c]) = dropwhile f l ++ [c].
Proof.
  intros E. induction l as [|a l IH]; cbn; [rewrite E; reflexivity|].
  destruct (f a); [exact IH | reflexivity].
Qed.

Lemma rstrip_cons (c : ascii) (t : str) :
  isspace c = false -> rstrip (c :: t) = c :: rstrip t.
Proof.
  intros E. unfold rstrip. cbn [rev].
  rewrite dropwhile_app_last by exact E. rewrite rev_app_distr. reflexivity.
Qed.

Lemma rstrip_twice (t : str) : rstrip (rstrip t) = rstrip t.
Proof.
  unfold rstrip. rewrite rev_involutive, dropwhile_twice. reflexivity.
Qed.

(** Stripping twice is stripping once. *)
Lemma strip_twice (s : str) : strip (strip s) = strip s.
Proof.
  unfold strip, lstrip. destruct (dropwhile isspace s) as [|c t] eqn:D;
    [reflexivity|].
  apply dropwhile_head in D. rewrite (@rstrip_cons c t D).
  cbn [dropwhile]. rewrite D. rewrite (@rstrip_cons c _ D), rstrip_twice.
  reflexivity.
Qed.

Lemma strip_cons (c : ascii) (t : str) :
  isspace c = false -> strip (c :: t) = c :: rstrip t.
Proof.
  intros E. unfold strip, lstrip. cbn [dropwhile]. rewrite E.
  apply rstrip_cons. exact E.
Qed.

Lemma digits_to_Z_nonneg (ds : str) :
  forallb isdigit ds = true -> (0 <= digits_to_Z ds)%Z.
Proof.
  unfold digits_to_Z.
  assert (G : forall acc, (0 <= acc)%Z -> forallb isdigit ds = true ->
                          (0 <= fold_left
                                  (fun a c => a * 10 + digit_value c)%Z ds acc)%Z).
  { induction ds as [|c ds IH]; intros acc A F; cbn; [exact A|].
    cbn in F. apply andb_true_iff in F. destruct F as [D F].
    apply IH; [|exact F]. unfold isdigit in D.
    apply andb_true_iff in D. destruct D as [D _]. apply N.leb_le in D.
    unfold digit_value. lia. }
  apply G. lia.
Qed.



(** ** What the assembler always does *)

Section AssemblerShape.

Context `{EnumMappings}.

(** Every unit [_build_unit] returns has the fixed gyro and cockpit, no
    variant, no jump-jet type and no enhancements; its equipment entries
    have no slots and no linked ammunition, and a rear flag that is set
    or absent, never false; its quirks and the system manufacturers of
    its fluff are absent rather than empty. *)
Theorem build_unit_fixed_fields (d : RawRecord) (u : SerializedUnit) :
  _build_unit d = Some u ->
  gyro u = mkSerializedGyro (lit "STANDARD")
  /\ cockpit u = lit "STANDARD"
  /\ variant u = None
  /\ jumpJetType (movement u) = None /\ enhancements (movement u) = None
  /\ Forall (fun e => slots e = None /\ linkedAmmo e = None
                      /\ isRearMounted e <> Some false) (equipment u)
  /\ length (equipment u) = length (weapons d)
  /\ unit_quirks u <> Some []
  /\ (forall fl, unit_fluff u = Some fl -> systemManufacturer fl <> Some []).
Proof.
  unfold _build_unit.
  destruct (eqb _ (lit "Unknown")); [discriminate|].
  intros [= <-]. cbn.
  split; [reflexivity|]. split; [reflexivity|]. split; [reflexivity|].
  split; [reflexivity|]. split; [reflexivity|].
  split; [|split; [|split]].
  - unfold _build_equipment_list. apply Forall_forall. intros e I.
    apply in_map_iff in I. destruct I as (w & <- & _). cbn.
    destruct (is_rear_mounted (name w)); repeat split; discriminate.
  - unfold _build_equipment_list. apply length_map.
  - destruct (quirks d); cbn; discriminate.
  - unfold fluff_of. destruct (Dict.truthy (fluff d)); [|discriminate].
    intros fl [= <-]. cbn.
    destruct (system_manufacturers d); cbn; discriminate.
Qed.


(** When several raw sections map to one location, the table holds the
    last of them; a location is absent from the table exactly when no
    raw section maps to it. *)
Theorem critical_slots_last_section_wins (criticals : Dict.t str (list str)) :
  (forall l1 raw items l2,
      criticals = l1 ++ (raw, items) :: l2 ->
      (forall r i, In (r, i) l2 ->
                   map_mech_location r <> map_mech_location raw) ->
      Dict.get (map_mech_location raw) (_build_critical_slots criticals)
      = Some (normalize_slots (max_slots (map_mech_location raw))
                              (map slot_of_item items)))
  /\ (forall loc,
      Dict.get loc (_build_critical_slots criticals) = None
      <-> forall r i, In (r, i) criticals -> map_mech_location r <> loc).
Proof.
  assert (KEEP : forall l acc loc,
             (forall r i, In (r, i) l -> map_mech_location r <> loc) ->
             Dict.get loc
               (fold_left
                  (fun slots '(location, items) =>
                     Dict.set (map_mech_location location)
                       (normalize_slots
                          (max_slots (map_mech_location location))
                          (map slot_of_item items)) slots) l acc)
             = Dict.get loc acc).
  { induction l as [|[r i] l IH]; intros acc loc N; cbn; [reflexivity|].
    rewrite IH by (intros r' i' I; apply (N r' i'); right; exact I).
    apply get_set_other. intros E. apply (N r i); [left; reflexivity|].
    symmetry; exact E. }
  split.
  - intros l1 raw items l2 -> L. unfold _build_critical_slots.
    rewrite fold_left_cons_app. rewrite KEEP by exact L.
    apply get_set_same.
  - assert (PRESENT : forall l acc loc,
               Dict.get loc acc <> None
               \/ (exists r i, In (r, i) l /\ map_mech_location r = loc) ->
               Dict.get loc
                 (fold_left
                    (fun slots '(location, items) =>
                       Dict.set (map_mech_location location)
                         (normalize_slots
                            (max_slots (map_mech_location location))
                            (map slot_of_item items)) slots) l acc)
               <> None).
    { induction l as [|[r0 i0] l IH]; intros acc loc [A|(r & i & I & E)]; cbn.
      - exact A.
      - destruct I.
      - apply IH. left. rewrite get_set.
        destruct (eqb loc (map_mech_location r0)); [discriminate | exact A].
      - apply IH. destruct I as [[= -> ->]|I].
        + left. subst loc. rewrite get_set_same. discriminate.
        + right. exists r, i. auto. }
    intros loc. split.
    + intros G r i I E. unfold _build_critical_slots in G.
      apply (PRESENT criticals Dict.empty loc); [|exact G].
      right. exists r, i. auto.
    + intros N. unfold _build_critical_slots. rewrite KEEP by exact N.
      reflexivity.
Qed.

End AssemblerShape.

Lemma build_unit_fixed_fields_witness :
  let d := with_weapons [mkWeapon (lit "Medium Laser(R)") (lit "Left Arm")]
             (set_str "chassis" (lit "Atlas") empty_record) in
  exists u, _build_unit d = Some u
            /\ cockpit u = lit "STANDARD"
            /\ length (equipment u) = length (weapons d).
Proof.
  intros d.
  destruct (_build_unit d) as [u|] eqn:B; [|vm_compute in B; discriminate].
  exists u. split; [reflexivity|].
  destruct (build_unit_fixed_fields d B) as (_ & C & _ & _ & _ & _ & L & _).
  split; [exact C | exact L].
Defined.

Lemma critical_slots_last_section_wins_witness :
  Dict.get (lit "HEAD")
    (_build_critical_slots [(lit "Head", [lit "a"]); (lit "head", [lit "b"])])
  = Some (normalize_slots 6 [Some (lit "b")])
  /\ Dict.get (lit "LEFT_ARM")
       (_build_critical_slots [(lit "Head", [lit "a"]); (lit "head", [lit "b"])])
     = None.
Proof.
  destruct (critical_slots_last_section_wins
              [(lit "Head", [lit "a"]); (lit "head", [lit "b"])]) as [L P].
  split.
  - exact (L [(lit "Head", [lit "a"])] (lit "head") [lit "b"] [] eq_refl
             (fun r i I => match I with end)).
  - apply (proj2 (P (lit "LEFT_ARM"))).
    intros r i [[= <- <-]|[[= <- <-]|[]]]; vm_compute; discriminate.
Defined.

(** ** [dataclass_to_dict] *)

Section PyvalueInduction.

Variable P : pyvalue -> Prop.
Hypothesis P_none : P PNone.
Hypothesis P_bool : forall b, P (PBool b).
Hypothesis P_int : forall n, P (PInt n).
Hypothesis P_str : forall s, P (PStr s).
Hypothesis P_list : forall items, Forall P items -> P (PList items).
Hypothesis P_dict :
  forall entries, Forall (fun kv => P (snd kv)) entries -> P (PDict entries).
Hypothesis P_data :
  forall fields, Forall (fun kv => P (snd kv)) fields -> P (PData fields).

Fixpoint pyvalue_induction (v : pyvalue) : P v :=
  match v with
  | PNone => P_none
  | PBool b => P_bool b
  | PInt n => P_int n
  | PStr s => P_str s
  | PList items =>
      P_list ((fix all (l : list pyvalue) : Forall P l :=
                 match l with
                 | [] => Forall_nil _
                 | x :: r => Forall_cons x (pyvalue_induction x) (all r)
                 end) items)
  | PDict entries =>
      P_dict ((fix all (l : list (ustr * pyvalue))
                 : Forall (fun kv => P (snd kv)) l :=
                 match l with
                 | [] => Forall_nil _
                 | (k, x) :: r =>
                     Forall_cons (k, x) (pyvalue_induction x) (all r)
                 end) entries)
  | PData fields =>
      P_data ((fix all (l : list (string * pyvalue))
                 : Forall (fun kv => P (snd kv)) l :=
                 match l with
                 | [] => Forall_nil _
                 | (k, x) :: r =>
                     Forall_cons (k, x) (pyvalue_induction x) (all r)
                 end) fields)
  end.

End PyvalueInduction.

(** The conversion of a dataclass instance with list functions: the
    fields whose converted value is not [None], under their names. *)
Lemma dataclass_to_dict_data (fields : list (string * pyvalue)) :
  dataclass_to_dict (PData fields)
  = PDict (flat_map (fun kv => match dataclass_to_dict (snd kv) with
                               | PNone => []
                               | converted => [(ulit (fst kv), converted)]
                               end) fields).
Proof.
  cbn. f_equal. induction fields as [|[n v] rest IH]; [reflexivity|].
  cbn [flat_map fst snd]. rewrite <- IH.
  destruct (dataclass_to_dict v); reflexivity.
Qed.

Lemma dataclass_to_dict_dict (entries : list (ustr * pyvalue)) :
  dataclass_to_dict (PDict entries)
  = PDict (map (fun kv => (fst kv, dataclass_to_dict (snd kv))) entries).
Proof.
  cbn. f_equal. induction entries as [|[k v] rest IH]; [reflexivity|].
  cbn [map fst snd]. rewrite <- IH. reflexivity.
Qed.

Lemma has_dataclass_dict (entries : list (ustr * pyvalue)) :
  has_dataclass (PDict entries)
  = existsb (fun kv => has_dataclass (snd kv)) entries.
Proof.
  cbn. induction entries as [|[k v] rest IH]; [reflexivity|].
  cbn [existsb snd]. rewrite <- IH. reflexivity.
Qed.

Lemma dataclass_to_dict_no_dataclass (v : pyvalue) :
  has_dataclass (dataclass_to_dict v) = false.
Proof.
  induction v using pyvalue_induction; try reflexivity.
  - cbn [dataclass_to_dict has_dataclass].
    induction H as [|x l Hx Hl IH]; cbn; [reflexivity|].
    rewrite Hx. exact IH.
  - rewrite dataclass_to_dict_dict, has_dataclass_dict.
    induction H as [|[k x] l Hx Hl IH]; cbn; [reflexivity|].
    cbn in Hx. rewrite Hx. exact IH.
  - rewrite dataclass_to_dict_data, has_dataclass_dict.
    induction H as [|[k x] l Hx Hl IH]; cbn [flat_map fst snd];
      [reflexivity|].
    rewrite existsb_app, IH, orb_false_r. cbn in Hx.
    destruct (dataclass_to_dict x); cbn [existsb snd];
      try reflexivity; rewrite Hx; reflexivity.
Qed.

Lemma dataclass_to_dict_fixed (v : pyvalue) :
  has_dataclass v = false -> dataclass_to_dict v = v.
Proof.
  induction v using pyvalue_induction; try reflexivity.
  - cbn [dataclass_to_dict has_dataclass]. intros E. f_equal.
    induction H as [|x l Hx Hl IH]; cbn; [reflexivity|].
    cbn in E. apply orb_false_iff in E. destruct E as [E1 E2].
    rewrite (Hx E1), (IH E2). reflexivity.
  - rewrite dataclass_to_dict_dict, has_dataclass_dict. intros E. f_equal.
    induction H as [|[k x] l Hx Hl IH]; cbn; [reflexivity|].
    cbn in E, Hx. apply orb_false_iff in E. destruct E as [E1 E2].
    rewrite (Hx E1), (IH E2). reflexivity.
  - discriminate.
Qed.

(** The result of [dataclass_to_dict] holds no dataclass instance, and
    converting it again changes nothing; a value without a dataclass
    instance is returned as it is, its [None] entries included. *)
Theorem dataclass_to_dict_idempotent (v : pyvalue) :
  has_dataclass (dataclass_to_dict v) = false
  /\ dataclass_to_dict (dataclass_to_dict v) = dataclass_to_dict v
  /\ (has_dataclass v = false -> dataclass_to_dict v = v).
Proof.
  split; [apply dataclass_to_dict_no_dataclass|].
  split; [|apply dataclass_to_dict_fixed].
  apply dataclass_to_dict_fixed. apply dataclass_to_dict_no_dataclass.
Qed.

Lemma slots_dict_plain (slots : Dict.t str (list (option str))) :
  has_dataclass
    (PDict (map (fun kv => (map code (fst kv), slots_value (snd kv))) slots))
  = false.
Proof.
  rewrite has_dataclass_dict.
  induction slots as [|[k l] rest IH]; cbn [map existsb snd]; [reflexivity|].
  rewrite IH, orb_false_r. unfold slots_value. cbn [has_dataclass].
  induction l as [|[s|] l IHl]; cbn; auto.
Qed.

Lemma ulit_eqb (a b : string) : eqb (ulit a) (ulit b) = String.eqb a b.
Proof.
  assert (INV : forall s, string_of_list_ascii (map ascii_of_N (ulit s)) = s).
  { intros s. unfold ulit. rewrite map_map.
    rewrite (map_ext _ (fun x => x)) by apply ascii_N_embedding.
    rewrite map_id. apply string_of_list_ascii_of_string. }
  destruct (String.eqb a b) eqn:E.
  - apply String.eqb_eq in E. subst b. apply eqb_refl.
  - apply eqb_neq. intros U. apply String.eqb_neq in E. apply E.
    rewrite <- (INV a), <- (INV b), U. reflexivity.
Qed.

(** The value written under a name for a dataclass instance: that of the
    first field of the name whose converted value is not [None]. *)
Fixpoint first_written (key : string) (fields : list (string * pyvalue))
    : option pyvalue :=
  match fields with
  | [] => None
  | (n, v) :: rest =>
      if String.eqb key n
      then match dataclass_to_dict v with
           | PNone => first_written key rest
           | converted => Some converted
           end
      else first_written key rest
  end.

Lemma json_get_data (key : string) (fields : list (string * pyvalue)) :
  json_get (ulit key) (dataclass_to_dict (PData fields))
  = first_written key fields.
Proof.
  rewrite dataclass_to_dict_data. cbn [json_get].
  induction fields as [|[n v] rest IH]; [reflexivity|].
  cbn [flat_map fst snd first_written]. rewrite <- IH.
  destruct (dataclass_to_dict v); cbn [app Dict.get];
    rewrite ?ulit_eqb; destruct (String.eqb key n); reflexivity.
Qed.

Lemma first_written_skip (key n : string) (v : pyvalue)
    (rest : list (string * pyvalue)) :
  String.eqb key n = false ->
  first_written key ((n, v) :: rest) = first_written key rest.
Proof. intros E. cbn [first_written]. rewrite E. reflexivity. Qed.

Lemma first_written_hit (key n : string) (v : pyvalue)
    (rest : list (string * pyvalue)) :
  String.eqb key n = true -> v <> PNone ->
  first_written key ((n, v) :: rest) = Some (dataclass_to_dict v).
Proof.
  intros E N. cbn [first_written]. rewrite E.
  destruct v; try reflexivity. contradiction.
Qed.

Lemma first_written_none (key n : string) (rest : list (string * pyvalue)) :
  first_written key ((n, PNone) :: rest) = first_written key rest.
Proof. cbn. destruct (String.eqb key n); reflexivity. Qed.

Ltac skip_fields := repeat (rewrite first_written_skip by reflexivity).

Ltac optional_field o :=
  rewrite json_get_data; skip_fields;
  destruct o; cbn [of_option option_map];
  [ rewrite first_written_hit by (first [reflexivity | discriminate]);
    reflexivity
  | rewrite first_written_none; skip_fields;
    repeat (rewrite first_written_none); reflexivity ].

(** The document written for a unit.  Each optional field of the unit
    (variant, quirks, fluff, mulId, role, source) is a key of the document
    exactly when it is not [None], with its converted value; the
    nineteen other fields are always keys; and the critical-slot table is
    written as it is, its [None] slots kept as entries. *)
Theorem unit_document_keys (u : SerializedUnit) :
  let doc := dataclass_to_dict (unit_value u) in
  json_get (ulit "variant") doc = option_map of_str (variant u)
  /\ json_get (ulit "quirks") doc
     = option_map (fun l => PList (map of_str l)) (unit_quirks u)
  /\ json_get (ulit "fluff") doc
     = option_map (fun f => dataclass_to_dict (fluff_value f)) (unit_fluff u)
  /\ json_get (ulit "mulId") doc = option_map PInt (mulId u)
  /\ json_get (ulit "role") doc = option_map of_str (role u)
  /\ json_get (ulit "source") doc = option_map of_str (source u)
  /\ json_get (ulit "criticalSlots") doc
     = Some (PDict (map (fun kv => (map code (fst kv), slots_value (snd kv)))
                        (criticalSlots u)))
  /\ Forall (fun key => json_get (ulit key) doc <> None)
            ["id"; "chassis"; "model"; "unitType"; "configuration";
             "techBase"; "rulesLevel"; "era"; "year"; "tonnage"; "engine";
             "gyro"; "cockpit"; "structure"; "armor"; "heatSinks";
             "movement"; "equipment"; "criticalSlots"]%string.
Proof.
  intros doc. subst doc. unfold unit_value.
  assert (L : forall l, dataclass_to_dict (PList (map of_str l))
                        = PList (map of_str l)).
  { intros l. apply dataclass_to_dict_fixed. cbn.
    induction l; cbn; auto. }
  pose proof (dataclass_to_dict_fixed _ (slots_dict_plain (criticalSlots u)))
    as CS.
  split; [optional_field (variant u)|].
  split.
  { rewrite json_get_data. skip_fields.
    destruct (unit_quirks u) as [q|]; cbn [of_option option_map].
    - rewrite first_written_hit by (first [reflexivity | discriminate]).
      rewrite (L q). reflexivity.
    - rewrite first_written_none. skip_fields.
      repeat (rewrite first_written_none). reflexivity. }
  split; [optional_field (unit_fluff u)|].
  split; [optional_field (mulId u)|].
  split; [optional_field (role u)|].
  split; [optional_field (source u)|].
  split.
  { rewrite json_get_data. skip_fields.
    rewrite first_written_hit by (first [reflexivity | discriminate]).
    rewrite CS. reflexivity. }
  repeat (apply Forall_cons;
          [rewrite json_get_data; skip_fields;
           rewrite first_written_hit by (first [reflexivity | discriminate]);
           discriminate|]).
  apply Forall_nil.
Qed.

Section EquipmentDocument.

Context `{EnumMappings}.

(** An equipment entry as it is written.  The entry built for a weapon
    has the keys id and location, and the key isRearMounted, with the
    value true, only when the weapon is rear-mounted; slots and
    linkedAmmo are never written. *)
Theorem equipment_document (w : weapon) :
  map (fun e => dataclass_to_dict (equipment_value e))
      (_build_equipment_list [w])
  = [PDict ([(ulit "id",
              of_str (normalize_equipment_id (clean_name (name w))));
             (ulit "location", of_str (map_mech_location (location w)))]
            ++ (if is_rear_mounted (name w)
                then [(ulit "isRearMounted", PBool true)]
                else []))].
Proof.
  unfold _build_equipment_list. cbn [map]. unfold equipment_value.
  rewrite dataclass_to_dict_data. cbn [flat_map fst snd app].
  cbn [slots isRearMounted linkedAmmo equipment_id equipment_location
       of_option].
  destruct (is_rear_mounted (name w)); reflexivity.
Qed.

End EquipmentDocument.

(** ** File names *)

Lemma replace_char (a b : ascii) (s : str) :
  replace [a] [b] s = map (fun x => if eqb a x then b else x) s.
Proof.
  unfold replace. induction s as [|c s IH]; [reflexivity|].
  cbn [replace_from map].
  change (startswith [a] (c :: s)) with (eqb a c && true).
  rewrite andb_true_r. cbn [length Nat.sub]. rewrite IH.
  destruct (eqb a c); reflexivity.
Qed.

(** The file name of a unit: every character of "chassis model" that is
    one of the nine invalid characters becomes a hyphen and every other
    character is kept, so the name keeps its length and holds no invalid
    character. *)
Theorem safe_name_replaces_invalid (chassis model : str) :
  safe_name chassis model
  = map (fun x => if existsb (fun a => eqb a x) invalid_chars
                  then "-"%char else x)
        (chassis ++ lit " " ++ model)
  /\ length (safe_name chassis model) = length chassis + 1 + length model
  /\ forall a, In a invalid_chars ->
               has_char a (safe_name chassis model) = false.
Proof.
  assert (E : safe_name chassis model
              = map (fun x => if existsb (fun a => eqb a x) invalid_chars
                              then "-"%char else x)
                    (chassis ++ lit " " ++ model)).
  { unfold safe_name, invalid_chars. cbn [fold_left].
    change (lit "-") with ["-"%char].
    rewrite !replace_char, !map_map. apply map_ext. intros x.
    cbn [existsb].
    repeat match goal with
           | |- context [eqb ?a x] =>
               let Q := fresh "Q" in
               destruct (eqb a x) eqn:Q;
               [apply eqb_eq in Q; subst x; vm_compute; reflexivity|];
               cbv beta iota
           end.
    reflexivity. }
  split; [exact E|]. split.
  - rewrite E, length_map, !length_app. cbn. lia.
  - intros a I. rewrite E.
    destruct (has_char a (map _ (chassis ++ lit " " ++ model))) eqn:C;
      [|reflexivity].
    apply has_char_In in C. apply in_map_iff in C.
    destruct C as (x & X & _). exfalso.
    destruct (existsb (fun a0 => eqb a0 x) invalid_chars) eqn:B.
    + subst a. repeat (destruct I as [I|I]; [discriminate I|]). destruct I.
    + subst x. assert (T : existsb (fun a0 => eqb a0 a) invalid_chars = true).
      { apply existsb_exists. exists a. split; [exact I | apply eqb_refl]. }
      congruence.
Qed.

(** ** The directory loop *)

Section DirectoryCounts.

Context {M : EnumMappings}.
Variable int_of_float : str -> conversion.
Variable get_era_folder_name : str -> str.
Variable get_rules_level_folder_name : str -> str.
Variable disk : Type.
Variable write_json : disk -> target -> pyvalue -> disk * bool.

Let step := convert_step int_of_float get_era_folder_name
                         get_rules_level_folder_name write_json.

Lemma convert_steps_count (era_filter : option str)
    (contents : list (option (list str))) (p : progress disk) :
  let q := fold_left (step era_filter) contents p in
  let failed := length (filter (gives_no_unit int_of_float) contents) in
  let kept :=
    length (filter (passes_filter int_of_float get_era_folder_name
                                  era_filter) contents) in
  success_count q + fail_count q
  = success_count p + fail_count p + failed + kept
  /\ fail_count p + failed <= fail_count q
  /\ ((forall d t v, snd (write_json d t v) = true) ->
      fail_count q = fail_count p + failed).
Proof.
  revert p. induction contents as [|c cs IH]; intros p; cbn [fold_left].
  - cbn. repeat split; intros; lia.
  - specialize (IH (step era_filter p c)).
    cbv zeta in IH. destruct IH as (E & F & W).
    assert (S1 :
      let p' := step era_filter p c in
      let f := if gives_no_unit int_of_float c then 1 else 0 in
      let k := if passes_filter int_of_float get_era_folder_name
                                era_filter c then 1 else 0 in
      success_count p' + fail_count p'
      = success_count p + fail_count p + f + k
      /\ fail_count p + f <= fail_count p'
      /\ ((forall d t v, snd (write_json d t v) = true) ->
          fail_count p' = fail_count p + f)).
    { unfold step, convert_step, gives_no_unit, passes_filter.
      destruct (read_and_parse int_of_float c) as [u|]; cbv zeta.
      - generalize (dataclass_to_dict (unit_value u)). intros doc.
        destruct (filtered_out era_filter _); cbn [negb].
        + repeat split; intros; lia.
        + destruct (write_json (written p) _ doc) as [d [|]] eqn:Wr;
            cbn [success_count fail_count].
          * repeat split; intros; lia.
          * split; [lia|split; [lia|]]. intros A.
            pose proof (A (written p)
                          (mkTarget
                             (get_era_folder_name (unit_era u))
                             (get_rules_level_folder_name (rulesLevel u))
                             (json_filename (chassis u) (model u))) doc)
              as A'.
            rewrite Wr in A'. discriminate.
      - cbn [success_count fail_count]. repeat split; intros; lia. }
    cbv zeta in S1. destruct S1 as (E1 & F1 & W1).
    cbv zeta. cbn [filter].
    destruct (gives_no_unit int_of_float c);
      destruct (passes_filter int_of_float get_era_folder_name era_filter c);
      cbn [length]; (split; [lia|split; [lia|]]);
      intros A; specialize (W A); specialize (W1 A); lia.
Qed.

Lemma no_filter_keeps_units (era_filter : option str)
    (contents : list (option (list str))) :
  match era_filter with Some f => f = [] | None => True end ->
  length (filter (gives_no_unit int_of_float) contents)
  + length (filter (passes_filter int_of_float get_era_folder_name
                                  era_filter) contents)
  = length contents.
Proof.
  intros N. induction contents as [|c cs IH]; [reflexivity|].
  cbn [filter]. unfold gives_no_unit at 1, passes_filter at 1.
  destruct (read_and_parse int_of_float c) as [u|]; cbn [length].
  - assert (F : filtered_out era_filter
                  (get_era_folder_name (unit_era u)) = false).
    { destruct era_filter as [f|]; [subst f|]; reflexivity. }
    rewrite F. cbn. lia.
  - lia.
Qed.

Lemma counted_at_most_once (era_filter : option str)
    (contents : list (option (list str))) :
  length (filter (gives_no_unit int_of_float) contents)
  + length (filter (passes_filter int_of_float get_era_folder_name
                                  era_filter) contents)
  <= length contents.
Proof.
  induction contents as [|c cs IH]; [cbn; lia|].
  cbn [filter].
  destruct (gives_no_unit int_of_float c) eqn:G;
    destruct (passes_filter int_of_float get_era_folder_name
                            era_filter c) eqn:P;
    cbn [length]; try lia.
  unfold gives_no_unit in G. unfold passes_filter in P.
  destruct (read_and_parse int_of_float c); discriminate.
Qed.

(** The two counts [convert_directory] returns.  A file is counted once
    or not at all: the counts add up to the files that give no unit plus
    the units the era filter lets through, so a filtered unit is neither a
    success nor a failure.  Every file that gives no unit is a failure;
    the other failures are writes that raised, and when no write raises
    the successes are exactly the units let through.  Without a filter,
    or with the empty one, every file is counted. *)
Theorem convert_directory_counts (contents : list (option (list str)))
    (era_filter : option str) (d : disk) :
  let result :=
    convert_directory int_of_float get_era_folder_name
                      get_rules_level_folder_name write_json
                      contents era_filter d in
  let failed := length (filter (gives_no_unit int_of_float) contents) in
  let kept :=
    length (filter (passes_filter int_of_float get_era_folder_name
                                  era_filter) contents) in
  success_count result + fail_count result = failed + kept
  /\ failed <= fail_count result
  /\ success_count result <= kept
  /\ success_count result + fail_count result <= length contents
  /\ ((forall s t v, snd (write_json s t v) = true) ->
      success_count result = kept /\ fail_count result = failed)
  /\ (match era_filter with Some f => f = [] | None => True end ->
      success_count result + fail_count result = length contents).
Proof.
  cbv zeta. unfold convert_directory.
  destruct (convert_steps_count era_filter contents (mkProgress 0 0 d))
    as (E & F & W).
  cbn [success_count fail_count] in E, F, W. fold step.
  pose proof (counted_at_most_once era_filter contents) as B.
  split; [lia|]. split; [lia|]. split; [lia|]. split; [lia|].
  split.
  - intros A. specialize (W A). lia.
  - intros N. pose proof (no_filter_keeps_units era_filter contents N) as K.
    lia.
Qed.

End DirectoryCounts.
